(** * A permission-scoped hierarchical store

    Shallow embedding of [Helpers/Ability.ts] and of the [Store] class
    (decorator [Restrict], [deepReading], [deepWriting],
    [deepCreatingPathFromJSONObject], [read], [write], [writeEntries],
    [entries]) together with the properties of the specification.

    Modelling conventions.
    - A JavaScript value is a term of [value]. A [Store] instance is the
      pair of the annotation table of its class (what [Restrict] registered
      through [Reflect.defineMetadata]) and of its own enumerable
      properties, [defaultPolicy] included, as an association list kept in
      the order [Object.entries] enumerates it.
    - The object graph is a tree (section 3 of the specification: no cycles,
      children exclusively owned), so that a mutation of a nested store is
      a functional update of the property holding it.
    - A producer is a zero-argument function without side effects that
      returns normally (section 5 of the specification); it is represented
      by the value it returns.
    - Members inherited from [Store.prototype] and [Object.prototype] are
      visible through [get]; invoking them or shadowing them is outside the
      model and is reported by the outcome [OutOfModel]. Accordingly a
      Store is taken to have no own property named like an inherited
      member.
    - The code applies no arithmetic to numbers, it only tests whether
      they are falsy; they are represented by integers. *)

From Stdlib Require Import String Ascii List ZArith NArith Bool.
From Stdlib Require Import DecimalString DecimalNat.
Import ListNotations.
Open Scope string_scope.
Open Scope list_scope.

Set Implicit Arguments.

(** ** Values *)

(** [Permission] of Ability.ts: ["r" | "w" | "rw" | "none"]. *)
Inductive Permission : Type := Pr | Pw | Prw | Pnone.

Definition permission_string (p : Permission) : string :=
  match p with
  | Pr => "r"
  | Pw => "w"
  | Prw => "rw"
  | Pnone => "none"
  end.

Unset Elimination Schemes.
Inductive value : Type :=
| VUndef                                   (* undefined *)
| VNull                                    (* null *)
| VBool (b : bool)
| VNum (n : Z)                             (* a number; the code only tests its truthiness *)
| VStr (s : string)
| VArr (items : list value)                (* JSONArray *)
| VObj (props : list (string * value))     (* plain object, in enumeration order *)
| VStore (meta : list (string * Permission))
         (props : list (string * value))   (* an instance of Store *)
| VFun (ret : value)                       (* producer: () => ret *)
| VNative (name : string).                 (* member inherited from a prototype *)
Set Elimination Schemes.

Definition props_t : Type := list (string * value).

(** The types of store.ts: at run time nothing separates them from the
    other values. *)
Definition StoreValue : Type := value.
Definition StoreResult : Type := value.
Definition JSONObject : Type := props_t.

(** Induction principle that reaches the values nested in lists. *)
Section value_induction.
Variable P : value -> Prop.
Hypothesis Hundef : P VUndef.
Hypothesis Hnull : P VNull.
Hypothesis Hbool : forall b, P (VBool b).
Hypothesis Hnum : forall n, P (VNum n).
Hypothesis Hstr : forall s, P (VStr s).
Hypothesis Harr : forall items, Forall P items -> P (VArr items).
Hypothesis Hobj : forall props, Forall (fun kv => P (snd kv)) props -> P (VObj props).
Hypothesis Hstore : forall meta props,
      Forall (fun kv => P (snd kv)) props -> P (VStore meta props).
Hypothesis Hfun : forall ret, P ret -> P (VFun ret).
Hypothesis Hnative : forall name, P (VNative name).

Fixpoint value_ind (v : value) : P v :=
    let fix on_items (l : list value) : Forall P l :=
      match l with
      | [] => Forall_nil _
      | x :: l' => Forall_cons x (value_ind x) (on_items l')
      end in
    let fix on_props (l : props_t) : Forall (fun kv => P (snd kv)) l :=
      match l with
      | [] => Forall_nil _
      | kv :: l' => Forall_cons kv (value_ind (snd kv)) (on_props l')
      end in
    match v with
    | VUndef => Hundef
    | VNull => Hnull
    | VBool b => Hbool b
    | VNum n => Hnum n
    | VStr s => Hstr s
    | VArr items => Harr (on_items items)
    | VObj props => Hobj (on_props props)
    | VStore meta props => Hstore meta (on_props props)
    | VFun ret => Hfun (value_ind ret)
    | VNative name => Hnative name
    end.
End value_induction.

(** The result of [typeof]. *)
Inductive jstype : Type :=
| TUndefined | TObject | TBoolean | TNumber | TString | TFunction.

Definition typeof (v : value) : jstype :=
  match v with
  | VUndef => TUndefined
  | VNull | VArr _ | VObj _ | VStore _ _ => TObject
  | VBool _ => TBoolean
  | VNum _ => TNumber
  | VStr _ => TString
  | VFun _ | VNative _ => TFunction
  end.

Definition is_object (v : value) : bool :=
  match typeof v with TObject => true | _ => false end.

Definition is_function (v : value) : bool :=
  match typeof v with TFunction => true | _ => false end.

(** [v instanceof Store]. *)
Definition instanceof_Store (v : value) : bool :=
  match v with VStore _ _ => true | _ => false end.

(** [!v]: the falsy values are undefined, null, false, 0 and "". *)
Definition falsy (v : value) : bool :=
  match v with
  | VUndef | VNull => true
  | VBool b => negb b
  | VNum n => Z.eqb n 0
  | VStr s => String.eqb s ""
  | _ => false
  end.

(** [v === s] for a string literal [s]. *)
Definition strict_eq_str (v : value) (s : string) : bool :=
  match v with VStr t => String.eqb t s | _ => false end.

(** ** Own properties, in the order of [Object.entries] *)

Section assoc.
Variable A : Type.

Fixpoint look (l : list (string * A)) (k : string) : option A :=
    match l with
    | [] => None
    | (k', x) :: l' => if String.eqb k' k then Some x else look l' k
    end.

Definition has (l : list (string * A)) (k : string) : bool :=
    match look l k with Some _ => true | None => false end.

  (** Assignment to a property that exists keeps its place. *)
Fixpoint replace (l : list (string * A)) (k : string) (x : A) : list (string * A) :=
    match l with
    | [] => []
    | (k', y) :: l' =>
        if String.eqb k' k then (k, x) :: l' else (k', y) :: replace l' k x
    end.
End assoc.

(** An array index is the canonical decimal form of an integer below
    2^32 - 1; own properties named by array indices are enumerated first,
    in ascending order, the others follow in creation order. *)
Definition array_index (k : string) : option N :=
  match NilEmpty.uint_of_string k with
  | Some u =>
      let n := N.of_uint u in
      if String.eqb (NilEmpty.string_of_uint (N.to_uint n)) k && N.ltb n 4294967295
      then Some n else None
  | None => None
  end.

Fixpoint insert_index (A : Type) (l : list (string * A)) (i : N) (k : string) (x : A)
  : list (string * A) :=
  match l with
  | [] => [(k, x)]
  | (k', y) :: l' =>
      match array_index k' with
      | Some j => if N.ltb j i then (k', y) :: insert_index l' i k x
                  else (k, x) :: (k', y) :: l'
      | None => (k, x) :: (k', y) :: l'
      end
  end.

(** [o[k] = x] on the own properties [l] of [o]. *)
Definition own_set (A : Type) (l : list (string * A)) (k : string) (x : A)
  : list (string * A) :=
  if has l k then replace l k x
  else match array_index k with
       | Some i => insert_index l i k x
       | None => l ++ [(k, x)]
       end.

(** ** Ability.ts *)

Record Ability : Type := mkAbility { permission : value }.

Definition canRead (a : Ability) : bool :=
  strict_eq_str (permission a) "r" || strict_eq_str (permission a) "rw".

Definition canWrite (a : Ability) : bool :=
  strict_eq_str (permission a) "w" || strict_eq_str (permission a) "rw".

(** ** Store *)

Record Store : Type := mkStore {
  meta : list (string * Permission);   (* Restrict annotations of the class *)
  own : props_t                        (* own properties, defaultPolicy included *)
}.

Definition VStoreOf (s : Store) : value := VStore (meta s) (own s).

(** [new Store()]: the field initialiser [defaultPolicy = "rw"], no annotation. *)
Definition new_Store : Store := mkStore [] [("defaultPolicy", VStr "rw")].

(** Names found on the prototype chain of a Store instance. *)
Definition proto_members : list string :=
  [ "constructor"; "getAbilityMetadata"; "deepReading"; "deepWriting";
    "deepCreatingPathFromJSONObject"; "allowedToRead"; "allowedToWrite";
    "read"; "write"; "writeEntries"; "entries";
    "__defineGetter__"; "__defineSetter__"; "hasOwnProperty";
    "__lookupGetter__"; "__lookupSetter__"; "isPrototypeOf";
    "propertyIsEnumerable"; "toString"; "valueOf"; "__proto__";
    "toLocaleString" ].

Definition is_proto_member (k : string) : bool :=
  existsb (String.eqb k) proto_members.

(** [this[k]]: the own property, else the inherited member, else undefined. *)
Definition get_props (p : props_t) (k : string) : value :=
  match look p k with
  | Some v => v
  | None => if is_proto_member k then VNative k else VUndef
  end.

Definition get (this : Store) (k : string) : value := get_props (own this) k.

(** [Restrict(permission)] run on the property [k] of a class. *)
Definition Restrict (p : Permission) (k : string) (m : list (string * Permission))
  : list (string * Permission) := own_set m k p.

(** [getAbilityMetadata]: the annotation, or an Ability made of the current
    [defaultPolicy]. *)
Definition getAbilityMetadata_raw (m : list (string * Permission)) (p : props_t)
           (key : string) : Ability :=
  match look m key with
  | Some perm => mkAbility (VStr (permission_string perm))
  | None => mkAbility (get_props p "defaultPolicy")
  end.

Definition getAbilityMetadata (this : Store) (key : string) : Ability :=
  getAbilityMetadata_raw (meta this) (own this) key.

Definition allowedToRead (this : Store) (key : string) : bool :=
  canRead (getAbilityMetadata this key).

Definition allowedToWrite (this : Store) (key : string) : bool :=
  canWrite (getAbilityMetadata this key).

(** ** Outcomes *)

Inductive error : Type :=
| AccessDenied   (* throw new Error("Cannot read property") *)
| TypeError      (* a TypeError raised by the JavaScript run time *)
| OutOfModel.    (* an inherited member is invoked or shadowed *)

Inductive outcome (A : Type) : Type :=
| Ok (a : A)
| Throw (e : error).
Arguments Throw {A} e.

Definition bind (A B : Type) (x : outcome A) (f : A -> outcome B) : outcome B :=
  match x with
  | Ok a => f a
  | Throw e => Throw e
  end.

Notation "x <- c ;; k" := (bind c (fun x => k))
  (at level 61, c at next level, right associativity).

(** ** Paths *)

(** [path.split(":")]: the first segment and the remaining ones; the result
    of [split] is never empty. *)
Fixpoint split_colon (path : string) : string * list string :=
  match path with
  | EmptyString => ("", [])
  | String c path' =>
      let (seg, rest) := split_colon path' in
      if Ascii.eqb c ":" then ("", seg :: rest) else (String c seg, rest)
  end.

(** ** deepReading *)

(** [typeof x === "function" ? x() : x]. *)
Definition resolve (x : value) : outcome value :=
  match x with
  | VFun ret => Ok ret
  | VNative _ => Throw OutOfModel
  | _ => Ok x
  end.

(** [this.deepReading(seg :: rest)]; [path.shift()] is the step to [rest]. *)
Fixpoint deepReading (seg : string) (rest : list string) (this : Store) {struct rest}
  : outcome StoreResult :=
  if negb (allowedToRead this seg) then Throw AccessDenied
  else
    itemToRead <- resolve (get this seg) ;;
    match itemToRead, rest with
    | VStore m p, seg' :: rest' => deepReading seg' rest' (mkStore m p)
    | _, _ => Ok itemToRead
    end.

Definition read (this : Store) (path : string) : outcome StoreResult :=
  let (seg, rest) := split_colon path in deepReading seg rest this.

(** ** deepWriting *)

(** [this[k] = x]; shadowing an inherited member is not modelled. *)
Definition assign (this : Store) (k : string) (x : value) : option Store :=
  if is_proto_member k then None
  else Some (mkStore (meta this) (own_set (own this) k x)).

(** [this.deepWriting(seg :: rest, value)]: the outcome and the store after
    the call, whether it returned or threw. *)
Fixpoint deepWriting (seg : string) (rest : list string) (val : StoreValue)
         (this : Store) {struct rest} : outcome StoreResult * Store :=
  if negb (allowedToWrite this seg) then (Throw AccessDenied, this)
  else
    match rest with
    | [] =>
        match assign this seg val with
        | None => (Throw OutOfModel, this)
        | Some this' => (Ok (get this' seg), this')
        end
    | seg' :: rest' =>
        match (if falsy (get this seg) then assign this seg (VStoreOf new_Store)
               else Some this) with
        | None => (Throw OutOfModel, this)
        | Some this1 =>
            match get this1 seg with
            | VStore m p =>
                let (r, child) := deepWriting seg' rest' val (mkStore m p) in
                (r, mkStore (meta this1) (replace (own this1) seg (VStoreOf child)))
            | VObj props =>
                ((if has props "deepWriting" then Throw OutOfModel else Throw TypeError),
                 this1)
            | VNative _ => (Throw OutOfModel, this1)
            | _ => (Throw TypeError, this1)
            end
        end
    end.

(** ** deepCreatingPathFromJSONObject *)

Definition index_key (i : nat) : string := NilEmpty.string_of_uint (Nat.to_uint i).

Fixpoint indexed (A : Type) (i : nat) (l : list A) : list (string * A) :=
  match l with
  | [] => []
  | x :: l' => (index_key i, x) :: indexed (S i) l'
  end.

Fixpoint chars (s : string) : list value :=
  match s with
  | EmptyString => []
  | String c s' => VStr (String c EmptyString) :: chars s'
  end.

(** [Object.entries(v)]. *)
Definition Object_entries (v : value) : outcome props_t :=
  match v with
  | VUndef | VNull => Throw TypeError
  | VObj p => Ok p
  | VStore _ p => Ok p
  | VArr items => Ok (indexed 0 items)
  | VStr s => Ok (indexed 0 (chars s))
  | _ => Ok []
  end.

(** [`${basePath ? `${basePath}:` : ""}${key}`]. *)
Definition childBasePath (basePath : option string) (key : string) : string :=
  match basePath with
  | Some b => if String.eqb b "" then key else b ++ ":" ++ key
  | None => key
  end.

Fixpoint deepCreatingPathFromJSONObject (basePath : option string) (v : value)
  : outcome (list (string * value)) :=
  let on_entry (key : string) (x : value) (sub : outcome (list (string * value)))
      : outcome (list (string * value)) :=
    if is_object x then sub else Ok [(childBasePath basePath key, x)] in
  let fix on_entries (entries : props_t) : outcome (list (string * value)) :=
    match entries with
    | [] => Ok []
    | (key, x) :: entries' =>
        here <- on_entry key x
                  (deepCreatingPathFromJSONObject (Some (childBasePath basePath key)) x) ;;
        more <- on_entries entries' ;;
        Ok (here ++ more)
    end in
  let fix on_items (i : nat) (items : list value) : outcome (list (string * value)) :=
    match items with
    | [] => Ok []
    | x :: items' =>
        here <- on_entry (index_key i) x
                  (deepCreatingPathFromJSONObject
                     (Some (childBasePath basePath (index_key i))) x) ;;
        more <- on_items (S i) items' ;;
        Ok (here ++ more)
    end in
  match v with
  | VUndef | VNull => Throw TypeError
  | VObj p => on_entries p
  | VStore _ p => on_entries p
  | VArr items => on_items 0 items
  | VStr s => Ok (map (fun kx => (childBasePath basePath (fst kx), snd kx))
                      (indexed 0 (chars s)))
  | _ => Ok []
  end.

(** ** write, writeEntries *)

(** The last line of [write]: [this.deepWriting(path.split(":"), value)]. *)
Definition write_single (path : string) (val : StoreValue) (this : Store)
  : outcome StoreResult * Store :=
  let (seg, rest) := split_colon path in deepWriting seg rest val this.

(** [paths.map((path) => this.write(path.path, path.value))]: the pairs are
    written in order and the first exception ends the loop. Every value of
    [paths] has a [typeof] other than "object" (lemma
    [deepCreatingPath_leaves]), so the call of [this.write] reaches its last
    line. *)
Fixpoint writePaths (paths : list (string * value)) (this : Store)
  : outcome unit * Store :=
  match paths with
  | [] => (Ok tt, this)
  | (path, val) :: paths' =>
      match write_single path val this with
      | (Ok _, this') => writePaths paths' this'
      | (Throw e, this') => (Throw e, this')
      end
  end.

Definition write (path : string) (val : StoreValue) (this : Store)
  : outcome StoreValue * Store :=
  if is_object val then
    match deepCreatingPathFromJSONObject (Some path) val with
    | Throw e => (Throw e, this)
    | Ok paths =>
        match writePaths paths this with
        | (Ok _, this') => (Ok val, this')
        | (Throw e, this') => (Throw e, this')
        end
    end
  else write_single path val this.

Definition writeEntries (entries : value) (this : Store) : outcome unit * Store :=
  match deepCreatingPathFromJSONObject None entries with
  | Throw e => (Throw e, this)
  | Ok paths => writePaths paths this
  end.

(** ** entries *)

(** [{...a, ...b}]. *)
Definition spread (a b : props_t) : props_t :=
  fold_left (fun acc kv => own_set acc (fst kv) (snd kv)) b a.

(** [entriesOrEmptyObject(key, value)] inside [entries]; [sub] stands for
    [value.entries()]. *)
Definition entriesOrEmptyObject_raw (m : list (string * Permission)) (p : props_t)
           (key : string) (x : value) (sub : props_t) : props_t :=
  if negb (canRead (getAbilityMetadata_raw m p key)) then []
  else if instanceof_Store x then [(key, VObj sub)]
  else [(key, x)].

(** The body of [entries], on the value of a Store: [Object.entries(this)]
    reduced from [{}]. *)
Fixpoint entries_value (v : value) : props_t :=
  match v with
  | VStore m p =>
      fold_left
        (fun acc entry =>
           spread acc (entriesOrEmptyObject_raw m p (fst entry) (snd entry)
                                                (entries_value (snd entry))))
        p []
  | _ => []
  end.

Definition entries (this : Store) : JSONObject := entries_value (VStoreOf this).

Definition entriesOrEmptyObject (this : Store) (key : string) (x : value) : props_t :=
  entriesOrEmptyObject_raw (meta this) (own this) key x (entries_value x).

(** ** adminStore.ts *)

(** [new AdminStore(user)]: the annotations of the three fields, the field
    initialisers and the constructor body. [UserStore] is not part of the
    sources at hand, hence [user] is a parameter. *)
Definition AdminStore_meta : list (string * Permission) :=
  Restrict Prw "getCredentials" (Restrict Pnone "name" (Restrict Prw "user" [])).

Definition credentialStore : Store :=
  snd (writeEntries (VObj [("username", VStr "user1")]) new_Store).

Definition new_AdminStore (user : value) : Store :=
  let fields :=
    own_set (own_set (own new_Store) "name" (VStr "John Doe"))
            "getCredentials" (VFun (VStoreOf credentialStore)) in
  mkStore AdminStore_meta
          (own_set (own_set fields "defaultPolicy" (VStr "none")) "user" user).

(** ** Notions used in the statements *)

(** The permission that decides the access to [key]: the explicit
    annotation if there is one, else the current [defaultPolicy]. *)
Definition effective_permission (this : Store) (key : string) : value :=
  permission (getAbilityMetadata this key).

(** [this.defaultPolicy = v]. *)
Definition set_defaultPolicy (this : Store) (v : value) : Store :=
  mkStore (meta this) (own_set (own this) "defaultPolicy" v).

(** What [entries] shows of a readable entry: a nested Store is replaced by
    its own [entries()], anything else is kept as it is. *)
Definition snapshot (x : value) : value :=
  if instanceof_Store x then VObj (entries_value x) else x.

(** The value found by following the own properties along a path. *)
Fixpoint stored_at (seg : string) (rest : list string) (this : Store) : value :=
  match rest with
  | [] => get this seg
  | seg' :: rest' =>
      match get this seg with
      | VStore m p => stored_at seg' rest' (mkStore m p)
      | _ => VUndef
      end
  end.

(** ** The flattening, as a map over the entries *)

(** [entries.map(f).flat()] where [f] may throw. *)
Fixpoint flat_map_entries (A : Type) (f : string -> value -> outcome (list A))
         (entries : props_t) : outcome (list A) :=
  match entries with
  | [] => Ok []
  | (key, x) :: entries' =>
      here <- f key x ;;
      more <- flat_map_entries f entries' ;;
      Ok (here ++ more)
  end.

(** The function mapped over [Object.entries(value)]. *)
Definition path_of_entry (basePath : option string) (key : string) (x : value)
  : outcome (list (string * value)) :=
  if is_object x
  then deepCreatingPathFromJSONObject (Some (childBasePath basePath key)) x
  else Ok [(childBasePath basePath key, x)].

Definition leaf (pv : string * value) : Prop := is_object (snd pv) = false.

(** ** Deep equality and plain structures *)

(** Deep equality of structured values: the same keys with deeply equal
    values, whatever the order of the keys. *)
Inductive opt_rel (R : value -> value -> Prop) : option value -> option value -> Prop :=
| opt_rel_none : opt_rel R None None
| opt_rel_some a b : R a b -> opt_rel R (Some a) (Some b).

#[warnings="-register-all"]
Inductive deep_equal : value -> value -> Prop :=
| deep_equal_same v : deep_equal v v
| deep_equal_obj a b :
    (forall k, opt_rel deep_equal (look a k) (look b k)) ->
    deep_equal (VObj a) (VObj b)
| deep_equal_arr a b : Forall2 deep_equal a b -> deep_equal (VArr a) (VArr b).

Fixpoint has_colon (s : string) : bool :=
  match s with
  | EmptyString => false
  | String c s' => Ascii.eqb c ":" || has_colon s'
  end.

(** The keys for which the round trip is stated: a key is one path segment,
    is not empty, and is neither "defaultPolicy" nor an inherited member. *)
Definition key_ok (k : string) : bool :=
  negb (has_colon k) && negb (String.eqb k "") &&
  negb (String.eqb k "defaultPolicy") && negb (is_proto_member k).

Fixpoint unique (l : list string) : bool :=
  match l with
  | [] => true
  | k :: l' => negb (existsb (String.eqb k) l') && unique l'
  end.

(** The values nested in the structure: undefined, booleans, numbers,
    strings and non-empty objects of such values. *)
Fixpoint plain (v : value) : bool :=
  match v with
  | VUndef | VBool _ | VNum _ | VStr _ => true
  | VObj props =>
      match props with [] => false | _ => true end &&
      forallb (fun kv => key_ok (fst kv) && plain (snd kv)) props &&
      unique (map fst props)
  | _ => false
  end.

Definition plain_props (props : props_t) : bool :=
  forallb (fun kv => key_ok (fst kv) && plain (snd kv)) props && unique (map fst props).

(** What [entries()] is expected to return after [writeEntries(X)]: the
    structure [X] with [defaultPolicy: "rw"] added to every object. *)
Fixpoint with_defaultPolicy (v : value) : value :=
  match v with
  | VObj props =>
      VObj (("defaultPolicy", VStr "rw")
              :: map (fun kv => (fst kv, with_defaultPolicy (snd kv))) props)
  | _ => v
  end.

(** The pairs of a plain structure, with paths relative to it. *)
Definition under (seg : string) (pv : string * value) : string * value :=
  ((seg ++ ":" ++ fst pv)%string, snd pv).

Fixpoint paths_of (v : value) : list (string * value) :=
  match v with
  | VObj props =>
      flat_map (fun kv => if is_object (snd kv)
                          then map (under (fst kv)) (paths_of (snd kv))
                          else [(fst kv, snd kv)]) props
  | _ => []
  end.

Definition rebase (basePath : option string) (pv : string * value) : string * value :=
  (childBasePath basePath (fst pv), snd pv).

Definition good_base (basePath : option string) : Prop :=
  match basePath with Some b => b <> "" | None => True end.

(** The flattening of a plain structure does not throw. *)
Definition flattens_to_paths (x : value) : Prop :=
  plain x = true -> is_object x = true ->
  forall basePath, good_base basePath ->
    deepCreatingPathFromJSONObject basePath x = Ok (map (rebase basePath) (paths_of x)).

(** Stores without annotation whose policy is "rw", such as [new Store()]
    and the results of writing a plain structure into it. *)
Definition open_store (this : Store) : Prop :=
  meta this = [] /\ look (own this) "defaultPolicy" = Some (VStr "rw").

(** [this[k] = x] and the update of the nested Store held at [seg]. *)
Definition put (this : Store) (k : string) (x : value) : Store :=
  mkStore (meta this) (own_set (own this) k x).

Definition put_child (this : Store) (seg : string) (child : Store) : Store :=
  mkStore (meta this) (replace (own this) seg (VStoreOf child)).

(** What a value of the structure becomes in the store: an object becomes
    the Store obtained by writing its pairs into a new Store. *)
Definition stored (x : value) : value :=
  if is_object x then VStoreOf (snd (writePaths (paths_of x) new_Store)) else x.

Definition props_of (x : value) : props_t :=
  match x with VObj p => p | _ => [] end.

(** The pairs of [props] are written into [this] without failure and
    [this'] holds them. *)
Definition written (props : props_t) (this this' : Store) : Prop :=
  writePaths (paths_of (VObj props)) this = (Ok tt, this') /\
  open_store this' /\
  NoDup (map fst (own this')) /\
  forall k, look (own this') k = match look props k with
                                | Some x => Some (stored x)
                                | None => look (own this) k
                                end.

Definition writes_well (x : value) : Prop :=
  plain x = true -> is_object x = true -> exists c, written (props_of x) new_Store c.

Definition round_trips (x : value) : Prop :=
  plain x = true -> is_object x = true ->
  forall c, written (props_of x) new_Store c ->
            deep_equal (VObj (entries c)) (with_defaultPolicy x).

(** ** Notions used in the further properties *)

(** Every Store met by [deepReading] along the path allows the read of its
    segment. *)
Fixpoint readable_along (seg : string) (rest : list string) (this : Store) : bool :=
  allowedToRead this seg &&
  match rest with
  | [] => true
  | seg' :: rest' =>
      match get this seg with
      | VStore m p => readable_along seg' rest' (mkStore m p)
      | _ => true
      end
  end.

(** The truthy values that have no [deepWriting] member: [true], numbers
    other than 0, non-empty strings, arrays, producers and plain objects
    without such a property. *)
Definition truthy_without_deepWriting (x : value) : bool :=
  negb (falsy x) &&
  match x with
  | VBool _ | VNum _ | VStr _ | VArr _ | VFun _ => true
  | VObj props => negb (has props "deepWriting")
  | _ => false
  end.

(** A [null] is met when the objects, arrays and Stores of [v] are
    traversed. *)
Fixpoint has_null (v : value) : bool :=
  match v with
  | VNull => true
  | VArr items => existsb has_null items
  | VObj props => existsb (fun kv => has_null (snd kv)) props
  | VStore _ props => existsb (fun kv => has_null (snd kv)) props
  | _ => false
  end.

(** The flattening throws exactly when it meets a null. *)
Definition null_decides_flattening (x : value) : Prop :=
  forall basePath, is_object x = true ->
    (has_null x = true ->
     deepCreatingPathFromJSONObject basePath x = Throw TypeError) /\
    (has_null x = false ->
     exists paths, deepCreatingPathFromJSONObject basePath x = Ok paths).

(** An object, array or Store that holds no value other than such objects,
    arrays and Stores: [{}], [[]], [{a: {}, b: []}]. *)
Fixpoint leafless (v : value) : bool :=
  match v with
  | VArr items => forallb leafless items
  | VObj props => forallb (fun kv => leafless (snd kv)) props
  | VStore _ props => forallb (fun kv => leafless (snd kv)) props
  | _ => false
  end.

(** The store after the assignments [this[k] = x] of a list of entries. *)
Definition put_all (entries : props_t) (this : Store) : Store :=
  fold_left (fun s kv => put s (fst kv) (snd kv)) entries this.

(** * Properties *)

(** ** Association lists *)

Section assoc_facts.
Variable A : Type.
Implicit Types (l : list (string * A)) (k : string) (x : A).

Lemma look_app l1 l2 k :
  look (l1 ++ l2) k = match look l1 k with Some x => Some x | None => look l2 k end.
Proof.
  induction l1 as [|[k' y] l1 IH]; simpl; [reflexivity|].
  destruct (String.eqb k' k); auto.
Qed.

Lemma look_replace l k x k' :
  has l k = true ->
  look (replace l k x) k' = if String.eqb k k' then Some x else look l k'.
Proof.
  unfold has. induction l as [|[k0 y] l IH]; simpl; [discriminate|].
  destruct (String.eqb k0 k) eqn:E0.
  - apply String.eqb_eq in E0; subst k0. intros _. simpl.
    destruct (String.eqb k k'); reflexivity.
  - intros H. simpl. destruct (String.eqb k0 k') eqn:E1.
    + apply String.eqb_eq in E1; subst k0.
      rewrite String.eqb_sym in E0. rewrite E0. reflexivity.
    + apply IH, H.
Qed.

Lemma look_insert_index l i k x k' :
  look l k = None ->
  look (insert_index l i k x) k' = if String.eqb k k' then Some x else look l k'.
Proof.
  induction l as [|[k0 y] l IH]; simpl; [reflexivity|].
  destruct (String.eqb k0 k) eqn:E0; [discriminate|]. intros H.
  assert (Hhere : look ((k, x) :: (k0, y) :: l) k'
                  = if String.eqb k k' then Some x else look ((k0, y) :: l) k')
    by reflexivity.
  destruct (array_index k0) as [j|]; [destruct (N.ltb j i)|]; try exact Hhere.
  simpl. rewrite (IH H). destruct (String.eqb k0 k') eqn:E1; [|reflexivity].
  apply String.eqb_eq in E1; subst k0. rewrite String.eqb_sym, E0. reflexivity.
Qed.

Lemma look_own_set l k x k' :
  look (own_set l k x) k' = if String.eqb k k' then Some x else look l k'.
Proof.
  unfold own_set. destruct (has l k) eqn:H.
  - apply look_replace, H.
  - assert (Hn : look l k = None) by (unfold has in H; destruct (look l k); congruence).
    destruct (array_index k).
    + apply look_insert_index, Hn.
    + rewrite look_app. simpl. destruct (String.eqb k k') eqn:E.
      * apply String.eqb_eq in E; subst k'. rewrite Hn. reflexivity.
      * destruct (look l k'); reflexivity.
Qed.

Lemma look_own_set_same l k x : look (own_set l k x) k = Some x.
Proof. rewrite look_own_set, String.eqb_refl. reflexivity. Qed.

Lemma look_own_set_other l k x k' :
  k <> k' -> look (own_set l k x) k' = look l k'.
Proof.
  intros H. rewrite look_own_set. apply String.eqb_neq in H. rewrite H. reflexivity.
Qed.

Lemma look_none_not_in l k : look l k = None <-> ~ In k (map fst l).
Proof.
  induction l as [|[k0 y] l IH]; simpl.
  - split; [intros _ []|reflexivity].
  - destruct (String.eqb k0 k) eqn:E.
    + apply String.eqb_eq in E. split; [discriminate|]. intros H. elim H. auto.
    + apply String.eqb_neq in E. rewrite IH. tauto.
Qed.
End assoc_facts.

(** ** Permissions *)

Lemma get_set_defaultPolicy this v : get (set_defaultPolicy this v) "defaultPolicy" = v.
Proof.
  unfold get, get_props, set_defaultPolicy; simpl.
  rewrite look_own_set_same. reflexivity.
Qed.

Lemma deepReading_denied this seg rest :
  allowedToRead this seg = false -> deepReading seg rest this = Throw AccessDenied.
Proof. intros H. destruct rest; simpl; rewrite H; reflexivity. Qed.

Lemma deepWriting_denied this seg rest val :
  allowedToWrite this seg = false ->
  deepWriting seg rest val this = (Throw AccessDenied, this).
Proof. intros H. destruct rest; simpl; rewrite H; reflexivity. Qed.

(** C5. A key whose effective permission is "none" can be neither read nor
    written: [allowedToRead] and [allowedToWrite] are false, [read] of a
    path that starts at the key throws the access error, and so does
    [write] of a single value, which leaves the store as it was. *)
Theorem none_denies_access (this : Store) (key : string) :
  effective_permission this key = VStr "none" ->
  allowedToRead this key = false /\
  allowedToWrite this key = false /\
  (forall path, fst (split_colon path) = key ->
                read this path = Throw AccessDenied) /\
  (forall path val, fst (split_colon path) = key -> is_object val = false ->
                    write path val this = (Throw AccessDenied, this)).
Proof.
  unfold effective_permission. intros H.
  assert (Hr : allowedToRead this key = false)
    by (unfold allowedToRead, canRead; rewrite H; reflexivity).
  assert (Hw : allowedToWrite this key = false)
    by (unfold allowedToWrite, canWrite; rewrite H; reflexivity).
  repeat split; trivial.
  - intros path Hp. unfold read. destruct (split_colon path) as [seg rest].
    simpl in Hp; subst seg. apply deepReading_denied, Hr.
  - intros path val Hp Hv. unfold write, write_single. rewrite Hv.
    destruct (split_colon path) as [seg rest].
    simpl in Hp; subst seg. apply deepWriting_denied, Hw.
Qed.

Lemma none_denies_access_witness :
  allowedToRead (new_AdminStore VUndef) "name" = false /\
  write "name:first" (VStr "x") (new_AdminStore VUndef)
  = (Throw AccessDenied, new_AdminStore VUndef).
Proof.
  assert (H : effective_permission (new_AdminStore VUndef) "name" = VStr "none")
    by reflexivity.
  destruct (none_denies_access (new_AdminStore VUndef) "name" H) as (Hr & _ & _ & Hw).
  split; [exact Hr|]. apply Hw; reflexivity.
Defined.

(** C6. Without an annotation the effective permission of a key is the
    current [defaultPolicy] of the instance, so that [allowedToRead] and
    [allowedToWrite] are the capabilities of that policy and follow every
    assignment to [defaultPolicy]; with an annotation the annotation
    decides, whatever [defaultPolicy] is set to. *)
Theorem default_policy_governs (this : Store) (key : string) :
  (look (meta this) key = None ->
   effective_permission this key = get this "defaultPolicy" /\
   allowedToRead this key = canRead (mkAbility (get this "defaultPolicy")) /\
   allowedToWrite this key = canWrite (mkAbility (get this "defaultPolicy")) /\
   forall policy,
     effective_permission (set_defaultPolicy this policy) key = policy /\
     allowedToRead (set_defaultPolicy this policy) key = canRead (mkAbility policy) /\
     allowedToWrite (set_defaultPolicy this policy) key = canWrite (mkAbility policy)) /\
  (forall perm, look (meta this) key = Some perm ->
   effective_permission this key = VStr (permission_string perm) /\
   forall policy,
     effective_permission (set_defaultPolicy this policy) key
     = VStr (permission_string perm) /\
     allowedToRead (set_defaultPolicy this policy) key = allowedToRead this key /\
     allowedToWrite (set_defaultPolicy this policy) key = allowedToWrite this key).
Proof.
  unfold effective_permission, allowedToRead, allowedToWrite, getAbilityMetadata,
    getAbilityMetadata_raw.
  split.
  - intros H. rewrite H. do 3 (split; [reflexivity|]).
    intros policy. simpl. rewrite H. unfold get_props.
    rewrite look_own_set_same. repeat split.
  - intros perm H. rewrite H. split; [reflexivity|].
    intros policy. simpl. rewrite H. repeat split.
Qed.

Lemma default_policy_governs_witness :
  allowedToRead new_Store "a" = true /\
  allowedToRead (set_defaultPolicy new_Store (VStr "w")) "a" = false /\
  allowedToWrite (set_defaultPolicy (new_AdminStore VUndef) (VStr "rw")) "name" = false.
Proof.
  destruct (default_policy_governs new_Store "a") as [Hd _].
  destruct (Hd eq_refl) as (_ & Hr & _ & Hp).
  destruct (Hp (VStr "w")) as (_ & Hr' & _).
  destruct (default_policy_governs (new_AdminStore VUndef) "name") as [_ Ha].
  destruct (Ha Pnone eq_refl) as (_ & Hq).
  destruct (Hq (VStr "rw")) as (_ & _ & Hw).
  split; [rewrite Hr; reflexivity|].
  split; [rewrite Hr'; reflexivity|rewrite Hw; reflexivity].
Defined.

(** ** Reading *)

(** C7. When the first segment of the path is readable, a producer found
    there is invoked to obtain the value, and a resolved value that is not
    a Store is the result of [read] whatever segments follow: they are
    neither looked up nor checked. A producer that returns a Store is
    descended into like a nested Store. *)
Theorem read_resolves_first_segment (this : Store) (path seg : string)
        (rest : list string) :
  split_colon path = (seg, rest) ->
  allowedToRead this seg = true ->
  (forall ret, get this seg = VFun ret -> instanceof_Store ret = false ->
               read this path = Ok ret) /\
  (is_function (get this seg) = false -> instanceof_Store (get this seg) = false ->
   read this path = Ok (get this seg)) /\
  (forall m p, get this seg = VFun (VStore m p) ->
               read this path = match rest with
                                | [] => Ok (VStore m p)
                                | seg' :: rest' => deepReading seg' rest' (mkStore m p)
                                end).
Proof.
  intros Hs Ha. unfold read. rewrite Hs. repeat split.
  - intros ret Hg Hn. destruct rest; simpl; rewrite Ha, Hg; simpl.
    all: destruct ret; try reflexivity; discriminate.
  - intros Hf Hn. destruct rest; simpl; rewrite Ha; simpl.
    all: destruct (get this seg); try reflexivity; discriminate.
  - intros m p Hg. destruct rest; simpl; rewrite Ha, Hg; reflexivity.
Qed.

Lemma read_resolves_first_segment_witness :
  read (mkStore [] [("defaultPolicy", VStr "r"); ("f", VFun (VNum 3)); ("n", VNum 4)])
       "f:x:y" = Ok (VNum 3) /\
  read (mkStore [] [("defaultPolicy", VStr "r"); ("f", VFun (VNum 3)); ("n", VNum 4)])
       "n:defaultPolicy" = Ok (VNum 4).
Proof.
  set (s := mkStore [] [("defaultPolicy", VStr "r"); ("f", VFun (VNum 3)); ("n", VNum 4)]).
  split.
  - destruct (@read_resolves_first_segment s "f:x:y" "f" ["x"; "y"] eq_refl eq_refl)
      as (H & _ & _).
    apply (H (VNum 3)); reflexivity.
  - destruct (@read_resolves_first_segment s "n:defaultPolicy" "n" ["defaultPolicy"]
                                           eq_refl eq_refl) as (_ & H & _).
    apply H; reflexivity.
Defined.

(** ** Enumerating *)

Lemma entries_unfold this :
  entries this
  = fold_left (fun acc entry =>
                 spread acc (entriesOrEmptyObject this (fst entry) (snd entry)))
              (own this) [].
Proof. reflexivity. Qed.

Lemma look_entriesOrEmptyObject this key x acc k :
  look (spread acc (entriesOrEmptyObject this key x)) k
  = if String.eqb key k && allowedToRead this key then Some (snapshot x)
    else look acc k.
Proof.
  unfold entriesOrEmptyObject, entriesOrEmptyObject_raw, snapshot.
  fold (getAbilityMetadata this key). fold (allowedToRead this key).
  destruct (allowedToRead this key); simpl.
  - destruct (instanceof_Store x); simpl; rewrite look_own_set;
      destruct (String.eqb key k); reflexivity.
  - rewrite andb_false_r. reflexivity.
Qed.

Lemma look_reduce this (l : props_t) : forall acc k,
  NoDup (map fst l) ->
  look (fold_left (fun acc entry =>
                     spread acc (entriesOrEmptyObject this (fst entry) (snd entry)))
                  l acc) k
  = match look l k with
    | Some x => if allowedToRead this k then Some (snapshot x) else look acc k
    | None => look acc k
    end.
Proof.
  induction l as [|[k0 x0] l IH]; intros acc k Hnd; simpl; [reflexivity|].
  inversion Hnd as [|? ? Hnotin Hnd']; subst.
  rewrite IH by exact Hnd'. rewrite look_entriesOrEmptyObject.
  destruct (String.eqb k0 k) eqn:E; simpl.
  - apply String.eqb_eq in E; subst k0.
    apply look_none_not_in in Hnotin. rewrite Hnotin. reflexivity.
  - destruct (look l k); reflexivity.
Qed.

Lemma look_entries this k :
  NoDup (map fst (own this)) ->
  look (entries this) k
  = if allowedToRead this k then option_map snapshot (look (own this) k) else None.
Proof.
  intros H. rewrite entries_unfold, look_reduce by exact H. simpl.
  destruct (look (own this) k), (allowedToRead this k); reflexivity.
Qed.

(** C4. In the object returned by [entries()], a key whose read permission
    is denied is absent; a readable nested Store appears as its own
    [entries()] (which in turn leaves out what that Store denies); every
    other readable entry, a producer included, appears as the very value
    stored, without being invoked; nothing else appears. *)
Theorem entries_shows_what_is_readable (this : Store) (key : string) :
  NoDup (map fst (own this)) ->
  (allowedToRead this key = false -> look (entries this) key = None) /\
  (look (own this) key = None -> look (entries this) key = None) /\
  (forall m p, allowedToRead this key = true ->
               look (own this) key = Some (VStore m p) ->
               look (entries this) key = Some (VObj (entries (mkStore m p)))) /\
  (forall x, allowedToRead this key = true ->
             look (own this) key = Some x -> instanceof_Store x = false ->
             look (entries this) key = Some x) /\
  (forall ret, allowedToRead this key = true ->
               look (own this) key = Some (VFun ret) ->
               look (entries this) key = Some (VFun ret)).
Proof.
  intros Hnd. rewrite look_entries by exact Hnd. repeat split.
  - intros ->. reflexivity.
  - intros ->. destruct (allowedToRead this key); reflexivity.
  - intros m p -> ->. reflexivity.
  - intros x -> -> Hx. simpl. unfold snapshot. rewrite Hx. reflexivity.
  - intros ret -> ->. reflexivity.
Qed.

Lemma entries_shows_what_is_readable_witness :
  look (entries (new_AdminStore (VStoreOf new_Store))) "name" = None /\
  look (entries (new_AdminStore (VStoreOf new_Store))) "user"
  = Some (VObj [("defaultPolicy", VStr "rw")]) /\
  look (entries (new_AdminStore (VStoreOf new_Store))) "getCredentials"
  = Some (VFun (VStoreOf credentialStore)).
Proof.
  assert (Hnd : NoDup (map fst (own (new_AdminStore (VStoreOf new_Store))))).
  { simpl. repeat constructor; simpl; intuition discriminate. }
  destruct (entries_shows_what_is_readable (new_AdminStore (VStoreOf new_Store)) "name" Hnd)
    as (Hname & _).
  destruct (entries_shows_what_is_readable (new_AdminStore (VStoreOf new_Store)) "user" Hnd)
    as (_ & _ & Huser & _).
  destruct (entries_shows_what_is_readable
              (new_AdminStore (VStoreOf new_Store)) "getCredentials" Hnd)
    as (_ & _ & _ & _ & Hprod).
  split; [apply Hname; reflexivity|].
  split; [apply (Huser [] [("defaultPolicy", VStr "rw")]); reflexivity|].
  apply Hprod; reflexivity.
Defined.

(** C10. Whenever the key "defaultPolicy" is readable, [entries()] lists it
    with the policy of the store, although nobody wrote such an entry:
    [defaultPolicy] is an own property like the others. This is the case
    of every plain Store. *)
Theorem entries_lists_defaultPolicy (this : Store) (policy : string) :
  NoDup (map fst (own this)) ->
  look (own this) "defaultPolicy" = Some (VStr policy) ->
  allowedToRead this "defaultPolicy" = true ->
  look (entries this) "defaultPolicy" = Some (VStr policy) /\
  look (entries new_Store) "defaultPolicy" = Some (VStr "rw").
Proof.
  intros Hnd Hp Ha. split; [|reflexivity].
  rewrite look_entries by exact Hnd. rewrite Ha, Hp. reflexivity.
Qed.

Lemma entries_lists_defaultPolicy_witness :
  look (entries (mkStore [("defaultPolicy", Pr)]
                         [("defaultPolicy", VStr "none"); ("a", VNum 1)]))
       "defaultPolicy" = Some (VStr "none").
Proof.
  refine (proj1 (@entries_lists_defaultPolicy
                   (mkStore [("defaultPolicy", Pr)]
                            [("defaultPolicy", VStr "none"); ("a", VNum 1)])
                   "none" _ eq_refl eq_refl)).
  simpl. repeat constructor; simpl; intuition discriminate.
Defined.

(** ** Writing a single value *)

Lemma Store_eta (s : Store) : mkStore (meta s) (own s) = s.
Proof. destruct s; reflexivity. Qed.

Lemma get_VStore_has this seg m p : get this seg = VStore m p -> has (own this) seg = true.
Proof.
  unfold get, get_props, has. destruct (look (own this) seg); [reflexivity|].
  destruct (is_proto_member seg); discriminate.
Qed.

Lemma get_assign this k x this' : assign this k x = Some this' -> get this' k = x.
Proof.
  unfold assign. destruct (is_proto_member k); [discriminate|].
  intros H; injection H as <-. unfold get, get_props; simpl.
  rewrite look_own_set_same. reflexivity.
Qed.

Lemma get_assign_other this k x this' k' :
  assign this k x = Some this' -> k <> k' -> get this' k' = get this k'.
Proof.
  unfold assign. destruct (is_proto_member k); [discriminate|].
  intros H Hne; injection H as <-. unfold get, get_props; simpl.
  rewrite look_own_set_other by exact Hne. reflexivity.
Qed.

Lemma get_replace this seg x :
  has (own this) seg = true ->
  get (mkStore (meta this) (replace (own this) seg x)) seg = x.
Proof.
  intros H. unfold get, get_props; simpl.
  rewrite look_replace by exact H. rewrite String.eqb_refl. reflexivity.
Qed.

Lemma get_replace_other this seg x k :
  has (own this) seg = true -> seg <> k ->
  get (mkStore (meta this) (replace (own this) seg x)) k = get this k.
Proof.
  intros H Hne. unfold get, get_props; simpl.
  rewrite look_replace by exact H.
  apply String.eqb_neq in Hne. rewrite Hne. reflexivity.
Qed.

Lemma deepWriting_returns_value rest : forall seg val this r this',
  deepWriting seg rest val this = (Ok r, this') ->
  r = val /\ stored_at seg rest this' = val.
Proof.
  induction rest as [|seg' rest' IH]; intros seg val this r this'; simpl.
  - destruct (allowedToWrite this seg); simpl; [|discriminate].
    destruct (assign this seg val) as [this1|] eqn:Ha; [|discriminate].
    intros H; injection H as <- <-.
    rewrite (get_assign _ _ _ Ha). split; reflexivity.
  - destruct (allowedToWrite this seg); simpl; [|discriminate].
    destruct (if falsy (get this seg) then assign this seg (VStoreOf new_Store)
              else Some this) as [this1|]; [|discriminate].
    destruct (get this1 seg) eqn:Hg; try discriminate.
    + destruct (has props "deepWriting"); discriminate.
    + destruct (deepWriting seg' rest' val (mkStore meta0 props)) as [r1 child] eqn:Hrec.
      intros H; injection H as -> <-.
      destruct (IH _ _ _ _ _ Hrec) as [-> Hst]. split; [reflexivity|].
      rewrite get_replace by exact (get_VStore_has _ _ Hg).
      unfold VStoreOf. rewrite Store_eta. exact Hst.
Qed.

(** C3 (amended). A successful write of a single value returns the value
    that was written, which is then what is stored at the end of the path;
    for a path of one segment this is the entry at that segment of the
    store on which [write] was called. *)
Theorem write_returns_written_value (this this' : Store) (path : string)
        (val r : value) :
  is_object val = false ->
  write path val this = (Ok r, this') ->
  r = val /\
  stored_at (fst (split_colon path)) (snd (split_colon path)) this' = val /\
  (snd (split_colon path) = [] -> r = get this' (fst (split_colon path))).
Proof.
  unfold write, write_single. intros ->.
  destruct (split_colon path) as [seg rest]; simpl. intros H.
  destruct (deepWriting_returns_value _ _ _ _ H) as [-> Hst].
  repeat split; trivial. intros ->. simpl in Hst. congruence.
Qed.

Lemma write_returns_written_value_witness :
  stored_at "p" ["q"; "r"] (snd (write "p:q:r" (VNum 7) new_Store)) = VNum 7.
Proof.
  exact (proj1 (proj2 (@write_returns_written_value
                         new_Store (snd (write "p:q:r" (VNum 7) new_Store)) "p:q:r"
                         (VNum 7) (VNum 7) eq_refl eq_refl))).
Defined.

(** C3 as stated fails: on a new Store, [write("a:b", 1)] returns 1 while
    the entry at the first segment "a" is the intermediate Store. *)
Lemma write_does_not_return_first_segment_entry :
  exists r this',
    write "a:b" (VNum 1) new_Store = (Ok r, this') /\
    r = VNum 1 /\
    get this' "a" = VStore [] [("defaultPolicy", VStr "rw"); ("b", VNum 1)] /\
    r <> get this' "a".
Proof.
  eexists; eexists. split; [reflexivity|].
  split; [reflexivity|]. split; [reflexivity|]. discriminate.
Qed.

(** ** Auto-vivification *)

(** C8. A write of several segments through a key that does not exist yet
    (and is not an inherited member) first puts a plain Store, that is
    [new Store()] with its policy "rw", at that key, and continues in it:
    the outcome is the one of the rest of the write on a new Store, which
    is what the key holds afterwards, and the other keys are untouched.
    On a new Store, [write("p:q:r", 7)] returns and [read("p:q:r")] then
    gives 7. *)
Theorem auto_vivification (this : Store) (seg seg' : string) (rest' : list string)
        (val : value) :
  allowedToWrite this seg = true ->
  look (own this) seg = None ->
  is_proto_member seg = false ->
  (fst (deepWriting seg (seg' :: rest') val this)
   = fst (deepWriting seg' rest' val new_Store) /\
   get (snd (deepWriting seg (seg' :: rest') val this)) seg
   = VStoreOf (snd (deepWriting seg' rest' val new_Store)) /\
   forall k, k <> seg ->
             get (snd (deepWriting seg (seg' :: rest') val this)) k = get this k) /\
  (fst (write "p:q:r" (VNum 7) new_Store) = Ok (VNum 7) /\
   read (snd (write "p:q:r" (VNum 7) new_Store)) "p:q:r" = Ok (VNum 7)).
Proof.
  intros Ha Hl Hp. split; [|split; reflexivity].
  cbn [deepWriting]. rewrite Ha. cbn [negb].
  assert (Hg : get this seg = VUndef)
    by (unfold get, get_props; rewrite Hl, Hp; reflexivity).
  rewrite Hg. cbn [falsy].
  destruct (assign this seg (VStoreOf new_Store)) as [this1|] eqn:Has;
    [|unfold assign in Has; rewrite Hp in Has; discriminate].
  pose proof (get_assign _ _ _ Has) as Hg1. rewrite Hg1.
  change (VStoreOf new_Store) with (VStore (meta new_Store) (own new_Store)) in Hg1.
  cbn [VStoreOf meta own new_Store].
  change (mkStore [] [("defaultPolicy", VStr "rw")]) with new_Store.
  destruct (deepWriting seg' rest' val new_Store) as [r child]. simpl fst; simpl snd.
  pose proof (get_VStore_has _ _ Hg1) as Hh.
  split; [reflexivity|]. split.
  - apply get_replace, Hh.
  - intros k Hk. rewrite get_replace_other by (auto using Hh).
    apply (get_assign_other _ _ Has). auto.
Qed.

Lemma auto_vivification_witness :
  get (snd (deepWriting "p" ["q"; "r"] (VNum 7) new_Store)) "p"
  = VStore [] [("defaultPolicy", VStr "rw");
               ("q", VStore [] [("defaultPolicy", VStr "rw"); ("r", VNum 7)])].
Proof.
  exact (proj1 (proj2 (proj1 (@auto_vivification new_Store "p" "q" ["r"] (VNum 7)
                                                 eq_refl eq_refl eq_refl)))).
Defined.

(** ** Batches of writes *)

Lemma replace_same (A : Type) (l : list (string * A)) k x :
  look l k = Some x -> replace l k x = l.
Proof.
  induction l as [|[k0 y] l IH]; simpl; [reflexivity|].
  destruct (String.eqb k0 k) eqn:E.
  - apply String.eqb_eq in E; subst k0. intros H; injection H as ->. reflexivity.
  - intros H. rewrite (IH H). reflexivity.
Qed.

Lemma allowedToWrite_new_Store seg : allowedToWrite new_Store seg = true.
Proof. reflexivity. Qed.

(** Inside a Store that was just created no permission is ever missing. *)
Lemma deepWriting_new_Store_not_denied rest : forall seg val,
  fst (deepWriting seg rest val new_Store) <> Throw AccessDenied.
Proof.
  induction rest as [|seg' rest' IH]; intros seg val.
  - cbn [deepWriting]. rewrite allowedToWrite_new_Store. cbn [negb].
    destruct (assign new_Store seg val); discriminate.
  - cbn [deepWriting]. rewrite allowedToWrite_new_Store. cbn [negb].
    destruct (falsy (get new_Store seg)) eqn:Hf.
    + destruct (assign new_Store seg (VStoreOf new_Store)) as [this1|] eqn:Has;
        [|discriminate].
      rewrite (get_assign _ _ _ Has). cbn [VStoreOf meta own new_Store].
      change (mkStore [] [("defaultPolicy", VStr "rw")]) with new_Store.
      specialize (IH seg' val).
      destruct (deepWriting seg' rest' val new_Store). exact IH.
    + destruct (get new_Store seg) eqn:Hg; cbn [fst]; try discriminate.
      * destruct (has props "deepWriting"); discriminate.
      * unfold get, get_props in Hg. cbn [own new_Store look] in Hg.
        destruct (String.eqb "defaultPolicy" seg); [discriminate|].
        destruct (is_proto_member seg); discriminate.
Qed.

(** A single write that is refused leaves the whole store as it was. *)
Lemma deepWriting_denied_unchanged rest : forall seg val this this',
  deepWriting seg rest val this = (Throw AccessDenied, this') -> this' = this.
Proof.
  induction rest as [|seg' rest' IH]; intros seg val this this'; cbn [deepWriting].
  - destruct (allowedToWrite this seg); cbn [negb]; [|congruence].
    destruct (assign this seg val); discriminate.
  - destruct (allowedToWrite this seg); cbn [negb]; [|congruence].
    destruct (falsy (get this seg)) eqn:Hf.
    + destruct (assign this seg (VStoreOf new_Store)) as [this1|] eqn:Has;
        [|discriminate].
      rewrite (get_assign _ _ _ Has). cbn [VStoreOf meta own new_Store].
      change (mkStore [] [("defaultPolicy", VStr "rw")]) with new_Store.
      pose proof (deepWriting_new_Store_not_denied rest' seg' val) as Hn.
      destruct (deepWriting seg' rest' val new_Store) as [r child]. simpl in Hn.
      intros H; injection H as -> _. contradiction.
    + destruct (get this seg) eqn:Hg; try discriminate.
      * destruct (has props "deepWriting"); discriminate.
      * destruct (deepWriting seg' rest' val (mkStore meta0 props)) as [r child] eqn:Hrec.
        intros H; injection H as -> <-.
        rewrite (IH _ _ _ _ Hrec). unfold VStoreOf; simpl.
        rewrite replace_same; [apply Store_eta|].
        unfold get, get_props in Hg. destruct (look (own this) seg); [congruence|].
        destruct (is_proto_member seg); discriminate.
Qed.

Lemma writePaths_app before : forall after this mid,
  writePaths before this = (Ok tt, mid) ->
  writePaths (before ++ after) this = writePaths after mid.
Proof.
  induction before as [|[path val] before IH]; intros after this mid; simpl.
  - intros H; injection H as ->. reflexivity.
  - destruct (write_single path val this) as [[r|e] this1]; [|discriminate].
    apply IH.
Qed.

(** C9. When a structured [write] or [writeEntries] meets a path it may
    not write, the call throws the access error and the store is the one
    the earlier pairs of the batch produced: they stay written, the refused
    write changes nothing, the later pairs are not attempted. *)
Theorem failed_batch_keeps_earlier_writes
        (this mid : Store) (base : option string) (structured : value)
        (before after : list (string * value)) (path : string) (val : value) :
  deepCreatingPathFromJSONObject base structured = Ok (before ++ (path, val) :: after) ->
  writePaths before this = (Ok tt, mid) ->
  fst (write_single path val mid) = Throw AccessDenied ->
  write_single path val mid = (Throw AccessDenied, mid) /\
  (base = None -> writeEntries structured this = (Throw AccessDenied, mid)) /\
  (forall p, base = Some p -> is_object structured = true ->
             write p structured this = (Throw AccessDenied, mid)).
Proof.
  intros Hflat Hbefore Hfail.
  assert (Hsingle : write_single path val mid = (Throw AccessDenied, mid)).
  { destruct (write_single path val mid) as [r s] eqn:Hw. simpl in Hfail; subst r.
    f_equal. unfold write_single in Hw. destruct (split_colon path) as [seg rest].
    apply (deepWriting_denied_unchanged _ _ _ _ Hw). }
  assert (Hall : writePaths (before ++ (path, val) :: after) this
                 = (Throw AccessDenied, mid)).
  { rewrite (writePaths_app _ _ _ Hbefore). simpl. rewrite Hsingle. reflexivity. }
  split; [exact Hsingle|]. split.
  - intros ->. unfold writeEntries. rewrite Hflat. exact Hall.
  - intros p -> Hobj. unfold write. rewrite Hobj, Hflat, Hall. reflexivity.
Qed.

Lemma failed_batch_keeps_earlier_writes_witness :
  writeEntries (VObj [("a", VNum 1); ("b", VNum 2); ("c", VNum 3)])
               (mkStore [("b", Pr)] [("defaultPolicy", VStr "rw")])
  = (Throw AccessDenied,
     mkStore [("b", Pr)] [("defaultPolicy", VStr "rw"); ("a", VNum 1)]).
Proof.
  refine (proj1 (proj2 (@failed_batch_keeps_earlier_writes
    (mkStore [("b", Pr)] [("defaultPolicy", VStr "rw")])
    (mkStore [("b", Pr)] [("defaultPolicy", VStr "rw"); ("a", VNum 1)])
    None (VObj [("a", VNum 1); ("b", VNum 2); ("c", VNum 3)])
    [("a", VNum 1)] [("c", VNum 3)] "b" (VNum 2) eq_refl eq_refl eq_refl)) eq_refl).
Defined.

(** ** Flattening *)

Lemma flat_map_indexed_chars basePath s : forall i,
  flat_map_entries (path_of_entry basePath) (indexed i (chars s))
  = Ok (map (fun kx => (childBasePath basePath (fst kx), snd kx)) (indexed i (chars s))).
Proof.
  induction s as [|c s IH]; intros i; simpl; [reflexivity|].
  rewrite IH. reflexivity.
Qed.

(** The definition by structural recursion is the code of the source:
    the entries of the value, mapped and flattened. *)
Lemma deepCreatingPath_unfold basePath v :
  deepCreatingPathFromJSONObject basePath v
  = (entries <- Object_entries v ;; flat_map_entries (path_of_entry basePath) entries).
Proof.
  destruct v as [| | b | n | s | items | props | m props | ret | name];
    try reflexivity.
  - simpl. rewrite flat_map_indexed_chars. reflexivity.
  - simpl. generalize 0. induction items as [|x items IH]; intros i; [reflexivity|].
    simpl. rewrite IH. reflexivity.
  - simpl. induction props as [|[k x] props IH]; [reflexivity|].
    simpl. rewrite IH. reflexivity.
  - simpl. induction props as [|[k x] props IH]; [reflexivity|].
    simpl. rewrite IH. reflexivity.
Qed.

Lemma Forall_indexed (P : value -> Prop) items : forall i,
  Forall P items -> Forall (fun kv => P (snd kv)) (indexed i items).
Proof.
  induction items as [|x items IH]; intros i H; simpl; [constructor|].
  inversion H; subst. constructor; auto.
Qed.

Lemma Forall_indexed_chars (P : value -> Prop) s : forall i,
  (forall c, P (VStr c)) -> Forall (fun kv => P (snd kv)) (indexed i (chars s)).
Proof.
  induction s as [|c s IH]; intros i H; simpl; constructor; simpl; auto.
Qed.

(** A property of the values nested in [v] and of every string holds of
    the values of [Object.entries(v)]. *)
Lemma Object_entries_children (P : value -> Prop) v es :
  Object_entries v = Ok es ->
  match v with
  | VArr items => Forall P items
  | VObj props | VStore _ props => Forall (fun kv => P (snd kv)) props
  | _ => True
  end ->
  (forall s, P (VStr s)) ->
  Forall (fun kv => P (snd kv)) es.
Proof.
  intros He Hc Hs.
  destruct v as [| | b | n | s | items | props | m props | ret | name];
    simpl in He; try discriminate; injection He as <-;
    auto using Forall_indexed, Forall_indexed_chars.
Qed.

Lemma flat_map_entries_Forall (A : Type) (Q : A -> Prop) f es : forall paths,
  Forall (fun kv => forall here, f (fst kv) (snd kv) = Ok here -> Forall Q here) es ->
  flat_map_entries f es = Ok paths -> Forall Q paths.
Proof.
  induction es as [|[k x] es IH]; intros paths Hes; simpl.
  - intros H; injection H as <-. constructor.
  - inversion Hes as [|? ? Hx Hes']; subst. simpl in Hx.
    destruct (f k x) as [here|]; simpl; [|discriminate].
    destruct (flat_map_entries f es) as [more|]; simpl; [|discriminate].
    intros H; injection H as <-. apply Forall_app. split; auto.
Qed.

(** Every pair produced by the flattening carries a value whose [typeof]
    is not "object": written through [write], it reaches [deepWriting]. *)
Lemma deepCreatingPath_leaves v : forall basePath paths,
  deepCreatingPathFromJSONObject basePath v = Ok paths -> Forall leaf paths.
Proof.
  induction v as [| | b | n | s | items IH | props IH | m props IH | ret IH | name]
    using value_ind; intros basePath paths; rewrite deepCreatingPath_unfold.
  all: match goal with
       | |- context [Object_entries ?v] => destruct (Object_entries v) as [es|] eqn:He
       end; simpl; try discriminate.
  all: apply flat_map_entries_Forall.
  all: eapply Forall_impl;
    [ | apply (@Object_entries_children
                 (fun x => forall basePath paths,
                      deepCreatingPathFromJSONObject basePath x = Ok paths ->
                      Forall leaf paths) _ _ He) ]; simpl; trivial.
  all: try (intros [k x] Hx here; unfold path_of_entry; simpl;
            destruct (is_object x) eqn:Ho;
            [ apply Hx
            | intros H; injection H as <-; repeat constructor; exact Ho ]).
  all: intros c b' ps H; injection H as <-;
    apply Forall_map; apply (@Forall_indexed_chars (fun x => is_object x = false));
    reflexivity.
Qed.

(** ** The two branches of write *)

Lemma is_object_cases val :
  is_object val = true <->
  (val = VNull \/ (exists items, val = VArr items) \/
   (exists props, val = VObj props) \/ (exists m props, val = VStore m props)).
Proof.
  split.
  - destruct val; try discriminate; intros _; eauto 6.
  - intros [->|[[? ->]|[[? ->]|[? [? ->]]]]]; reflexivity.
Qed.

(** C2 (amended). [write(path, value)] takes the flattening branch exactly
    when [typeof value] is "object": for a plain object, an array and a
    Store alike it computes the pairs, none of which carries an object, and
    writes them one after the other, returning [value] when all succeed;
    when the flattening throws, nothing is written. For a boolean, a
    number, a string, undefined and a function it performs the single deep
    write at the split path. *)
Theorem write_branches (path : string) (val : value) (this : Store) :
  (is_object val = false -> write path val this = write_single path val this) /\
  (is_object val = true ->
   (forall paths, deepCreatingPathFromJSONObject (Some path) val = Ok paths ->
      Forall leaf paths /\
      write path val this
      = (match fst (writePaths paths this) with
         | Ok _ => Ok val
         | Throw e => Throw e
         end, snd (writePaths paths this))) /\
   (forall e, deepCreatingPathFromJSONObject (Some path) val = Throw e ->
      write path val this = (Throw e, this))) /\
  (is_object val = true <->
   (val = VNull \/ (exists items, val = VArr items) \/
    (exists props, val = VObj props) \/ (exists m props, val = VStore m props))).
Proof.
  split; [|split; [|apply is_object_cases]].
  - intros H. unfold write. rewrite H. reflexivity.
  - intros H. unfold write. rewrite H. split.
    + intros paths Hp. split; [exact (deepCreatingPath_leaves _ _ Hp)|].
      rewrite Hp. destruct (writePaths paths this) as [[u|e] s]; reflexivity.
    + intros e ->. reflexivity.
Qed.

Lemma write_branches_witness :
  write "a" (VArr [VNum 1; VNum 2]) new_Store
  = (Ok (VArr [VNum 1; VNum 2]),
     mkStore [] [("defaultPolicy", VStr "rw");
                 ("a", VStore [] [("0", VNum 1); ("1", VNum 2);
                                  ("defaultPolicy", VStr "rw")])]) /\
  write "a" (VFun (VNum 1)) new_Store = write_single "a" (VFun (VNum 1)) new_Store.
Proof.
  split.
  - destruct (write_branches "a" (VArr [VNum 1; VNum 2]) new_Store) as (_ & H & _).
    destruct (H eq_refl) as [Hflat _].
    destruct (Hflat [("a:0", VNum 1); ("a:1", VNum 2)] eq_refl) as [_ Hw].
    rewrite Hw. reflexivity.
  - destruct (write_branches "a" (VFun (VNum 1)) new_Store) as (H & _).
    apply H. reflexivity.
Defined.

(** C2 as stated fails: an array and a Store are flattened, not written as
    one value at the path. *)
Lemma write_flattens_arrays_and_stores :
  write "a" (VArr [VNum 1; VNum 2]) new_Store
  <> write_single "a" (VArr [VNum 1; VNum 2]) new_Store /\
  get (snd (write "a" (VArr [VNum 1; VNum 2]) new_Store)) "a"
  = VStore [] [("0", VNum 1); ("1", VNum 2); ("defaultPolicy", VStr "rw")] /\
  get (snd (write_single "a" (VArr [VNum 1; VNum 2]) new_Store)) "a"
  = VArr [VNum 1; VNum 2] /\
  write "a" (VStoreOf (mkStore [] [("defaultPolicy", VStr "none"); ("x", VNum 1)]))
        new_Store
  <> write_single "a" (VStoreOf (mkStore [] [("defaultPolicy", VStr "none"); ("x", VNum 1)]))
                  new_Store.
Proof.
  split; [discriminate|]. split; [reflexivity|]. split; [reflexivity|discriminate].
Qed.

(** ** Round trip of writeEntries and entries *)

(** C1 as stated fails: on a new Store, whose keys are all read-write,
    [writeEntries({a: 1})] followed by [entries()] gives
    [{defaultPolicy: "rw", a: 1}]. *)
Lemma round_trip_adds_defaultPolicy :
  exists this',
    writeEntries (VObj [("a", VNum 1)]) new_Store = (Ok tt, this') /\
    entries this' = [("defaultPolicy", VStr "rw"); ("a", VNum 1)] /\
    ~ deep_equal (VObj (entries this')) (VObj [("a", VNum 1)]).
Proof.
  eexists. split; [reflexivity|]. split; [reflexivity|].
  intros H.
  change (deep_equal (VObj [("defaultPolicy", VStr "rw"); ("a", VNum 1)])
                     (VObj [("a", VNum 1)])) in H.
  inversion H as [v Hv | a b Hk | ]; subst.
  specialize (Hk "defaultPolicy"). inversion Hk.
Qed.

Lemma string_app_assoc (a b c : string) : ((a ++ b) ++ c = a ++ (b ++ c))%string.
Proof. induction a as [|x a IH]; simpl; [reflexivity|]. rewrite IH. reflexivity. Qed.

Lemma key_ok_facts k :
  key_ok k = true ->
  has_colon k = false /\ k <> "" /\ k <> "defaultPolicy" /\ is_proto_member k = false.
Proof.
  unfold key_ok. rewrite !andb_true_iff, !negb_true_iff.
  intros [[[H1 H2] H3] H4]. rewrite !String.eqb_neq in *. auto.
Qed.

Lemma childBasePath_good basePath k :
  good_base basePath -> k <> "" -> childBasePath basePath k <> "".
Proof.
  destruct basePath as [b|]; simpl; [|auto]. intros Hb Hk.
  apply String.eqb_neq in Hb. rewrite Hb.
  destruct b; [discriminate|]. discriminate.
Qed.

Lemma childBasePath_under basePath k p :
  good_base basePath -> k <> "" ->
  childBasePath (Some (childBasePath basePath k)) p
  = childBasePath basePath (k ++ ":" ++ p).
Proof.
  intros Hb Hk. pose proof (childBasePath_good _ Hb Hk) as Hc.
  apply String.eqb_neq in Hc. unfold childBasePath at 1. rewrite Hc.
  destruct basePath as [b|]; simpl; [|reflexivity].
  apply String.eqb_neq in Hb. rewrite Hb, !string_app_assoc. reflexivity.
Qed.

Lemma flat_map_entries_plain basePath (props : props_t) :
  good_base basePath ->
  Forall (fun kv => flattens_to_paths (snd kv)) props ->
  forallb (fun kv => key_ok (fst kv) && plain (snd kv)) props = true ->
  flat_map_entries (path_of_entry basePath) props
  = Ok (map (rebase basePath) (paths_of (VObj props))).
Proof.
  intros Hb. induction props as [|[k x] props IH]; intros Hall Hok; [reflexivity|].
  inversion Hall as [|? ? Hx Hall']; subst. simpl in Hx, Hok.
  apply andb_true_iff in Hok as [Hkx Hok]. apply andb_true_iff in Hkx as [Hk Hpx].
  destruct (key_ok_facts _ Hk) as (_ & Hne & _).
  cbn [flat_map_entries]. rewrite (IH Hall' Hok).
  cbn [paths_of flat_map fst snd]. rewrite map_app. unfold path_of_entry.
  destruct (is_object x) eqn:Ho.
  - rewrite (Hx Hpx Ho (Some (childBasePath basePath k)) (childBasePath_good _ Hb Hne)).
    simpl. f_equal. f_equal.
    rewrite map_map. apply map_ext. intros [p v]. unfold rebase, under; simpl fst; simpl snd.
    f_equal. apply childBasePath_under; assumption.
  - reflexivity.
Qed.

Lemma flatten_plain x : flattens_to_paths x.
Proof.
  induction x as [| | b | n | s | items IH | props IH | m props IH | ret IH | name]
    using value_ind; intros Hp Ho; try discriminate.
  intros basePath Hb. rewrite deepCreatingPath_unfold. cbn [Object_entries bind].
  apply flat_map_entries_plain; trivial.
  simpl in Hp. apply andb_true_iff in Hp as [Hp _].
  apply andb_true_iff in Hp as [_ Hp]. exact Hp.
Qed.

Lemma flatten_plain_props props :
  plain_props props = true ->
  deepCreatingPathFromJSONObject None (VObj props) = Ok (paths_of (VObj props)).
Proof.
  unfold plain_props. intros H. apply andb_true_iff in H as [H _].
  rewrite deepCreatingPath_unfold. cbn [Object_entries bind].
  rewrite flat_map_entries_plain; simpl; trivial.
  - f_equal. rewrite <- (map_id (flat_map _ props)) at 2.
    apply map_ext. intros [p v]. reflexivity.
  - apply Forall_forall. intros kv _. apply flatten_plain.
Qed.

Lemma open_new_Store : open_store new_Store.
Proof. split; reflexivity. Qed.

Lemma open_allowedToWrite this k : open_store this -> allowedToWrite this k = true.
Proof.
  intros [Hm Hd]. unfold allowedToWrite, getAbilityMetadata, getAbilityMetadata_raw.
  rewrite Hm. cbn [look]. unfold get_props. rewrite Hd. reflexivity.
Qed.

Lemma open_allowedToRead this k : open_store this -> allowedToRead this k = true.
Proof.
  intros [Hm Hd]. unfold allowedToRead, getAbilityMetadata, getAbilityMetadata_raw.
  rewrite Hm. cbn [look]. unfold get_props. rewrite Hd. reflexivity.
Qed.

Lemma look_replace_other (A : Type) (l : list (string * A)) k x k' :
  k <> k' -> look (replace l k x) k' = look l k'.
Proof.
  intros Hne. induction l as [|[k0 y] l IH]; simpl; [reflexivity|].
  destruct (String.eqb k0 k) eqn:E; simpl.
  - apply String.eqb_eq in E; subst k0. apply String.eqb_neq in Hne.
    rewrite Hne. reflexivity.
  - rewrite IH. reflexivity.
Qed.

Lemma replace_replace (A : Type) (l : list (string * A)) k x y :
  replace (replace l k x) k y = replace l k y.
Proof.
  induction l as [|[k0 z] l IH]; simpl; [reflexivity|].
  destruct (String.eqb k0 k) eqn:E; simpl.
  - rewrite String.eqb_refl. reflexivity.
  - rewrite E, IH. reflexivity.
Qed.

Lemma replace_keys (A : Type) (l : list (string * A)) k x :
  map fst (replace l k x) = map fst l.
Proof.
  induction l as [|[k0 z] l IH]; simpl; [reflexivity|].
  destruct (String.eqb k0 k) eqn:E; simpl.
  - apply String.eqb_eq in E; subst k0. reflexivity.
  - rewrite IH. reflexivity.
Qed.

Lemma insert_index_NoDup (A : Type) (l : list (string * A)) i k x :
  ~ In k (map fst l) -> NoDup (map fst l) -> NoDup (map fst (insert_index l i k x)).
Proof.
  induction l as [|[k0 y] l IH]; simpl; intros Hn Hnd.
  - constructor; [intros []|constructor].
  - assert (Hhere : NoDup (k :: k0 :: map fst l)) by (constructor; simpl; auto).
    destruct (array_index k0) as [j|]; [destruct (N.ltb j i)|]; try exact Hhere.
    inversion Hnd as [|? ? Hk0 Hnd']; subst. simpl. constructor.
    + intros Hin. apply Hk0. clear - Hin Hn.
      assert (Hsub : forall l', In k0 (map fst (insert_index l' i k x)) ->
                               k0 = k \/ In k0 (map fst l')).
      { induction l' as [|[k1 z] l' IH']; simpl.
        - intros [->|[]]; auto.
        - destruct (array_index k1) as [j1|]; [destruct (N.ltb j1 i)|]; simpl;
            intuition auto. }
      destruct (Hsub _ Hin) as [->|H]; [|exact H]. elim Hn. auto.
    + apply IH; auto.
Qed.

Lemma own_set_NoDup (A : Type) (l : list (string * A)) k x :
  NoDup (map fst l) -> NoDup (map fst (own_set l k x)).
Proof.
  intros Hnd. unfold own_set. destruct (has l k) eqn:Hh.
  - rewrite replace_keys. exact Hnd.
  - assert (Hn : ~ In k (map fst l)).
    { apply look_none_not_in. unfold has in Hh. destruct (look l k); congruence. }
    destruct (array_index k).
    + apply insert_index_NoDup; assumption.
    + rewrite map_app. simpl. apply NoDup_app; [exact Hnd|repeat constructor; intros []|].
      intros a Ha [<-|[]]. exact (Hn Ha).
Qed.

Lemma split_colon_key k : has_colon k = false -> split_colon k = (k, []).
Proof.
  induction k as [|c k IH]; simpl; [reflexivity|].
  intros H. apply orb_false_iff in H as [Hc Hk]. rewrite (IH Hk), Hc. reflexivity.
Qed.

Lemma split_colon_under k p :
  has_colon k = false ->
  split_colon (k ++ ":" ++ p) = (k, fst (split_colon p) :: snd (split_colon p)).
Proof.
  induction k as [|c k IH]; intros H.
  - simpl. destruct (split_colon p). reflexivity.
  - simpl in H. apply orb_false_iff in H as [Hc Hk]. specialize (IH Hk).
    simpl in IH |- *. rewrite IH, Hc. reflexivity.
Qed.

Lemma open_put this k x : open_store this -> k <> "defaultPolicy" -> open_store (put this k x).
Proof.
  intros [Hm Hd] Hk. split; simpl; [exact Hm|].
  rewrite look_own_set_other by exact Hk. exact Hd.
Qed.

Lemma open_put_child this seg c :
  open_store this -> seg <> "defaultPolicy" -> open_store (put_child this seg c).
Proof.
  intros [Hm Hd] Hk. split; simpl; [exact Hm|].
  rewrite look_replace_other by exact Hk. exact Hd.
Qed.

Lemma put_child_same this seg c : get this seg = VStoreOf c -> put_child this seg c = this.
Proof.
  intros Hg. unfold put_child. rewrite replace_same; [apply Store_eta|].
  unfold get, get_props in Hg. destruct (look (own this) seg); [congruence|].
  destruct (is_proto_member seg); discriminate.
Qed.

Lemma put_child_put_child this seg c1 c2 :
  put_child (put_child this seg c1) seg c2 = put_child this seg c2.
Proof. unfold put_child; simpl. rewrite replace_replace. reflexivity. Qed.

Lemma get_put_child this seg c0 c :
  get this seg = VStoreOf c0 -> get (put_child this seg c) seg = VStoreOf c.
Proof. intros H. apply get_replace. exact (get_VStore_has _ _ H). Qed.

Lemma write_single_key this k v :
  open_store this -> key_ok k = true -> write_single k v this = (Ok v, put this k v).
Proof.
  intros Ho Hk. destruct (@key_ok_facts _ Hk) as (Hc & _ & _ & Hp).
  unfold write_single. rewrite (@split_colon_key _ Hc). cbn [deepWriting].
  rewrite (@open_allowedToWrite _ _ Ho). cbn [negb]. unfold assign. rewrite Hp.
  fold (put this k v). f_equal. f_equal. unfold get, get_props, put; simpl.
  rewrite look_own_set_same. reflexivity.
Qed.

Lemma deepWriting_through this seg seg' rest' val c :
  allowedToWrite this seg = true -> get this seg = VStoreOf c ->
  deepWriting seg (seg' :: rest') val this
  = (fst (deepWriting seg' rest' val c),
     put_child this seg (snd (deepWriting seg' rest' val c))).
Proof.
  intros Ha Hg. cbn [deepWriting]. rewrite Ha. cbn [negb]. rewrite Hg.
  cbn [VStoreOf falsy]. rewrite Hg. cbn [VStoreOf]. rewrite Store_eta.
  destruct (deepWriting seg' rest' val c). reflexivity.
Qed.

Lemma deepWriting_vivify this seg seg' rest' val :
  allowedToWrite this seg = true ->
  allowedToWrite (put this seg (VStoreOf new_Store)) seg = true ->
  look (own this) seg = None -> is_proto_member seg = false ->
  deepWriting seg (seg' :: rest') val this
  = deepWriting seg (seg' :: rest') val (put this seg (VStoreOf new_Store)).
Proof.
  intros Ha Ha' Hl Hp.
  assert (Hg' : get (put this seg (VStoreOf new_Store)) seg = VStoreOf new_Store).
  { unfold get, get_props, put; simpl. rewrite look_own_set_same. reflexivity. }
  rewrite (@deepWriting_through _ _ _ _ _ _ Ha' Hg').
  cbn [deepWriting]. rewrite Ha. cbn [negb].
  assert (Hg : get this seg = VUndef)
    by (unfold get, get_props; rewrite Hl, Hp; reflexivity).
  rewrite Hg. cbn [falsy]. unfold assign. rewrite Hp.
  fold (put this seg (VStoreOf new_Store)). rewrite Hg'.
  cbn [VStoreOf meta own new_Store].
  change (mkStore [] [("defaultPolicy", VStr "rw")]) with new_Store.
  destruct (deepWriting seg' rest' val new_Store). reflexivity.
Qed.

Lemma write_single_through this seg p val c :
  open_store this -> has_colon seg = false -> get this seg = VStoreOf c ->
  write_single (seg ++ ":" ++ p) val this
  = (fst (write_single p val c), put_child this seg (snd (write_single p val c))).
Proof.
  intros Ho Hc Hg. unfold write_single. rewrite (@split_colon_under _ _ Hc).
  destruct (split_colon p) as [seg' rest']. cbn [fst snd].
  apply deepWriting_through; [apply open_allowedToWrite, Ho|exact Hg].
Qed.

Lemma write_single_vivify this seg p val :
  open_store this -> key_ok seg = true -> look (own this) seg = None ->
  write_single (seg ++ ":" ++ p) val this
  = write_single (seg ++ ":" ++ p) val (put this seg (VStoreOf new_Store)).
Proof.
  intros Ho Hk Hl. destruct (@key_ok_facts _ Hk) as (Hc & _ & Hd & Hp).
  unfold write_single. rewrite (@split_colon_under _ _ Hc).
  apply deepWriting_vivify; auto using open_allowedToWrite, open_put.
Qed.

(** Writing pairs below a key that holds a Store is writing them into that
    Store. *)
Lemma writePaths_under seg pairs : forall this c,
  open_store this -> has_colon seg = false -> seg <> "defaultPolicy" ->
  get this seg = VStoreOf c ->
  writePaths (map (under seg) pairs) this
  = (fst (writePaths pairs c), put_child this seg (snd (writePaths pairs c))).
Proof.
  induction pairs as [|[p val] pairs IH]; intros this c Ho Hc Hd Hg.
  - simpl. rewrite (@put_child_same _ _ _ Hg). reflexivity.
  - cbn [map writePaths under fst snd].
    rewrite (@write_single_through _ _ _ _ _ Ho Hc Hg).
    destruct (write_single p val c) as [[r|e] c1]; cbn [fst snd]; [|reflexivity].
    rewrite (IH (put_child this seg c1) c1);
      [ | apply open_put_child; assumption | assumption | assumption
        | apply (@get_put_child _ _ _ _ Hg) ].
    rewrite put_child_put_child. reflexivity.
Qed.

Lemma replace_own_set (A : Type) (l : list (string * A)) k x y :
  look l k = None -> replace (own_set l k y) k x = own_set l k x.
Proof.
  intros Hl. unfold own_set.
  assert (Hh : has l k = false) by (unfold has; rewrite Hl; reflexivity).
  rewrite Hh. destruct (array_index k) as [i|].
  - clear Hh. induction l as [|[k0 z] l IH]; simpl in *.
    + rewrite String.eqb_refl. reflexivity.
    + destruct (String.eqb k0 k) eqn:E; [discriminate|].
      destruct (array_index k0) as [j|]; [destruct (N.ltb j i)|]; simpl;
        rewrite ?E, ?String.eqb_refl, ?(IH Hl); reflexivity.
  - clear Hh. induction l as [|[k0 z] l IH]; simpl in *.
    + rewrite String.eqb_refl. reflexivity.
    + destruct (String.eqb k0 k); [discriminate|]. rewrite (IH Hl). reflexivity.
Qed.

(** Below a key that does not exist, the first write creates the Store. *)
Lemma writePaths_under_new seg pairs this :
  open_store this -> key_ok seg = true -> look (own this) seg = None ->
  pairs <> [] ->
  writePaths (map (under seg) pairs) this
  = (fst (writePaths pairs new_Store),
     put this seg (VStoreOf (snd (writePaths pairs new_Store)))).
Proof.
  intros Ho Hk Hl Hne. destruct (@key_ok_facts _ Hk) as (Hc & _ & Hd & Hp).
  assert (Hfirst : writePaths (map (under seg) pairs) this
                   = writePaths (map (under seg) pairs)
                                (put this seg (VStoreOf new_Store))).
  { destruct pairs as [|[p val] pairs]; [congruence|].
    cbn [map writePaths under fst snd].
    rewrite (@write_single_vivify _ _ _ _ Ho Hk Hl). reflexivity. }
  rewrite Hfirst.
  rewrite (@writePaths_under seg pairs (put this seg (VStoreOf new_Store)) new_Store).
  - f_equal. unfold put_child, put; simpl. f_equal.
    apply replace_own_set, Hl.
  - apply open_put; assumption.
  - exact Hc.
  - exact Hd.
  - unfold get, get_props, put; simpl. rewrite look_own_set_same. reflexivity.
Qed.

Lemma plain_object x :
  plain x = true -> is_object x = true ->
  exists props, x = VObj props /\ props <> [] /\
                forallb (fun kv => key_ok (fst kv) && plain (snd kv)) props = true /\
                unique (map fst props) = true.
Proof.
  destruct x as [| | b | n | s | items | props | m props | ret | name];
    try discriminate. intros Hp _. exists props. simpl in Hp.
  apply andb_true_iff in Hp as [Hp Hu]. apply andb_true_iff in Hp as [Hn Hp].
  repeat split; trivial. intros ->. discriminate.
Qed.

Lemma plain_not_Store x : plain x = true -> instanceof_Store x = false.
Proof. destruct x; try discriminate; reflexivity. Qed.

Lemma paths_of_nonempty x : plain x = true -> is_object x = true -> paths_of x <> [].
Proof.
  induction x as [| | b | n | s | items IH | props IH | m props IH | ret IH | name]
    using value_ind; intros Hp Ho; try discriminate.
  destruct props as [|[k x] props]; [discriminate|].
  inversion IH as [|? ? Hx _]; subst. simpl in Hx.
  simpl in Hp. apply andb_true_iff in Hp as [Hp _].
  apply andb_true_iff in Hp as [Hp _]. apply andb_true_iff in Hp as [_ Hpx].
  cbn [paths_of flat_map fst snd]. destruct (is_object x) eqn:Hox.
  - specialize (Hx Hpx eq_refl). destruct (paths_of x); [congruence|]. discriminate.
  - discriminate.
Qed.

Lemma unique_cons k l : unique (k :: l) = true -> ~ In k l /\ unique l = true.
Proof.
  simpl. intros H. apply andb_true_iff in H as [Hk Hu]. split; [|exact Hu].
  intros Hin. apply negb_true_iff in Hk.
  assert (existsb (String.eqb k) l = true); [|congruence].
  apply existsb_exists. exists k. split; [exact Hin|apply String.eqb_refl].
Qed.

Lemma look_In (A : Type) (l : list (string * A)) k x : look l k = Some x -> In (k, x) l.
Proof.
  induction l as [|[k0 y] l IH]; simpl; [discriminate|].
  destruct (String.eqb k0 k) eqn:E.
  - apply String.eqb_eq in E; subst k0. intros H; injection H as ->. auto.
  - auto.
Qed.

Lemma look_map_values (A B : Type) (f : A -> B) (l : list (string * A)) k :
  look (map (fun kv => (fst kv, f (snd kv))) l) k = option_map f (look l k).
Proof.
  induction l as [|[k0 y] l IH]; simpl; [reflexivity|].
  destruct (String.eqb k0 k); [reflexivity|exact IH].
Qed.

(** Writing the pairs of a list of entries whose keys are not in the
    store yet. *)
Lemma written_props props :
  Forall (fun kv => writes_well (snd kv)) props ->
  forallb (fun kv => key_ok (fst kv) && plain (snd kv)) props = true ->
  unique (map fst props) = true ->
  forall this, open_store this -> NoDup (map fst (own this)) ->
               (forall k, In k (map fst props) -> look (own this) k = None) ->
               exists this', written props this this'.
Proof.
  induction props as [|[k x] props IH]; intros Hall Hok Hu this Ho Hnd Habs.
  - exists this. repeat split; trivial; apply Ho.
  - inversion Hall as [|? ? Hx Hall']; subst. simpl in Hx, Hok.
    apply andb_true_iff in Hok as [Hkx Hok]. apply andb_true_iff in Hkx as [Hk Hpx].
    destruct (@unique_cons k (map fst props) Hu) as [Hnotin Hu'].
    destruct (@key_ok_facts k Hk) as (Hc & Hne & Hd & Hp).
    assert (Hfirst : writePaths (if is_object x then map (under k) (paths_of x)
                                 else [(k, x)]) this
                     = (Ok tt, put this k (stored x))).
    { unfold stored. destruct (is_object x) eqn:Hox.
      - rewrite writePaths_under_new;
          [ | assumption | assumption | apply Habs; simpl; auto
            | apply paths_of_nonempty; assumption ].
        destruct (Hx Hpx Hox) as (c & Hc' & _).
        destruct (@plain_object x Hpx Hox) as (p & -> & _). simpl in Hc'.
        cbn [paths_of] in *. rewrite Hc'. reflexivity.
      - cbn [writePaths]. rewrite (@write_single_key this k x Ho Hk). reflexivity. }
    destruct (IH Hall' Hok Hu' (put this k (stored x))) as (this' & Hw & Ho' & Hnd' & Hl').
    + apply open_put; assumption.
    + apply own_set_NoDup, Hnd.
    + intros k' Hin. simpl. rewrite look_own_set_other; [apply Habs; simpl; auto|].
      intros ->. exact (Hnotin Hin).
    + exists this'. split; [|split; [exact Ho'|split; [exact Hnd'|]]].
      * cbn [paths_of flat_map fst snd]. rewrite (@writePaths_app _ _ _ _ Hfirst).
        exact Hw.
      * intros k0. rewrite Hl'. simpl. rewrite look_own_set.
        destruct (String.eqb k k0) eqn:E; [|reflexivity].
        apply String.eqb_eq in E; subst k0.
        apply look_none_not_in in Hnotin. rewrite Hnotin. reflexivity.
Qed.

Lemma look_new_Store k : k <> "defaultPolicy" -> look (own new_Store) k = None.
Proof.
  intros H. cbn [own new_Store look].
  destruct (String.eqb "defaultPolicy" k) eqn:E; [|reflexivity].
  apply String.eqb_eq in E. congruence.
Qed.

Lemma keys_not_defaultPolicy (props : props_t) k :
  forallb (fun kv => key_ok (fst kv) && plain (snd kv)) props = true ->
  In k (map fst props) -> k <> "defaultPolicy".
Proof.
  intros Hok Hin. apply in_map_iff in Hin as ([k' x] & <- & Hin).
  rewrite forallb_forall in Hok. specialize (Hok _ Hin). simpl in Hok.
  apply andb_true_iff in Hok as [Hk _]. apply (@key_ok_facts k' Hk).
Qed.

Lemma written_new_Store props :
  Forall (fun kv => writes_well (snd kv)) props ->
  forallb (fun kv => key_ok (fst kv) && plain (snd kv)) props = true ->
  unique (map fst props) = true ->
  exists c, written props new_Store c.
Proof.
  intros Hall Hok Hu. apply written_props; trivial.
  - apply open_new_Store.
  - simpl. repeat constructor. intros [].
  - intros k Hin. apply look_new_Store. exact (@keys_not_defaultPolicy _ _ Hok Hin).
Qed.

Lemma writes_well_all x : writes_well x.
Proof.
  induction x as [| | b | n | s | items IH | props IH | m props IH | ret IH | name]
    using value_ind; intros Hp Ho; try discriminate.
  destruct (@plain_object _ Hp Ho) as (p & Hp' & _ & Hok & Hu).
  injection Hp' as <-. apply written_new_Store; assumption.
Qed.

Lemma snapshot_stored x :
  plain x = true ->
  snapshot (stored x)
  = if is_object x then VObj (entries (snd (writePaths (paths_of x) new_Store))) else x.
Proof.
  intros Hp. unfold stored. destruct (is_object x); [reflexivity|].
  unfold snapshot. rewrite (@plain_not_Store x Hp). reflexivity.
Qed.

Lemma entries_written props c :
  Forall (fun kv => round_trips (snd kv)) props ->
  forallb (fun kv => key_ok (fst kv) && plain (snd kv)) props = true ->
  written props new_Store c ->
  deep_equal (VObj (entries c)) (with_defaultPolicy (VObj props)).
Proof.
  intros Hall Hok (Hw & Ho & Hnd & Hl). cbn [with_defaultPolicy].
  apply deep_equal_obj. intros k.
  rewrite (@look_entries c k Hnd), (@open_allowedToRead c k Ho), Hl.
  cbn [look]. rewrite look_map_values.
  destruct (String.eqb "defaultPolicy" k) eqn:E.
  - apply String.eqb_eq in E; subst k.
    assert (Hnone : look props "defaultPolicy" = None).
    { apply look_none_not_in. intros Hin.
      exact (@keys_not_defaultPolicy _ _ Hok Hin eq_refl). }
    rewrite Hnone. simpl. constructor. apply deep_equal_same.
  - destruct (look props k) as [x|] eqn:Hx.
    + apply look_In in Hx. rewrite Forall_forall in Hall.
      specialize (Hall _ Hx). rewrite forallb_forall in Hok.
      specialize (Hok _ Hx). simpl in Hall, Hok.
      apply andb_true_iff in Hok as [_ Hpx].
      simpl. constructor. rewrite (@snapshot_stored x Hpx).
      destruct (is_object x) eqn:Hox.
      * destruct (@writes_well_all x Hpx Hox) as (c' & Hc').
        pose proof Hc' as (Hc'w & _).
        destruct (@plain_object x Hpx Hox) as (p & Hxp & _). subst x.
        simpl in Hc'w, Hc'. cbn [paths_of] in *. rewrite Hc'w. simpl snd.
        apply (Hall Hpx Hox c' Hc').
      * destruct x; try discriminate; apply deep_equal_same.
    + rewrite look_new_Store; [constructor|].
      intros ->. rewrite String.eqb_refl in E. discriminate.
Qed.

Lemma round_trips_all x : round_trips x.
Proof.
  induction x as [| | b | n | s | items IH | props IH | m props IH | ret IH | name]
    using value_ind; intros Hp Ho; try discriminate.
  intros c Hc. destruct (@plain_object _ Hp Ho) as (p & Hp' & _ & Hok & Hu).
  injection Hp' as <-. apply entries_written; assumption.
Qed.

(** C1 (amended). Let [X] be an object whose keys are unique path segments
    (no ":", not empty, neither "defaultPolicy" nor an inherited member)
    and whose values are undefined, booleans, numbers, strings and
    non-empty objects of the same kind. On a new Store,
    [writeEntries(X)] returns and [entries()] then yields [X] with
    [defaultPolicy: "rw"] added to every object, and nothing else. *)
Theorem round_trip_with_defaultPolicy (props : props_t) :
  plain_props props = true ->
  exists this',
    writeEntries (VObj props) new_Store = (Ok tt, this') /\
    deep_equal (VObj (entries this')) (with_defaultPolicy (VObj props)).
Proof.
  intros Hp. unfold writeEntries. rewrite (@flatten_plain_props props Hp).
  unfold plain_props in Hp. apply andb_true_iff in Hp as [Hok Hu].
  destruct (@written_new_Store props) as (c & Hc); trivial.
  { apply Forall_forall. intros kv _. apply writes_well_all. }
  exists c. split; [apply Hc|].
  apply entries_written; trivial.
  apply Forall_forall. intros kv _. apply round_trips_all.
Qed.

Lemma round_trip_with_defaultPolicy_witness :
  exists this',
    writeEntries (VObj [("x", VObj [("y", VNum 5); ("z", VStr "s")]); ("b", VBool true)])
                 new_Store = (Ok tt, this') /\
    deep_equal
      (VObj (entries this'))
      (VObj [("defaultPolicy", VStr "rw");
             ("x", VObj [("defaultPolicy", VStr "rw"); ("y", VNum 5); ("z", VStr "s")]);
             ("b", VBool true)]).
Proof.
  exact (@round_trip_with_defaultPolicy
           [("x", VObj [("y", VNum 5); ("z", VStr "s")]); ("b", VBool true)] eq_refl).
Defined.

(** ** Unique property names are kept *)

Lemma deepWriting_unique_keys rest : forall seg val this,
  NoDup (map fst (own this)) ->
  NoDup (map fst (own (snd (deepWriting seg rest val this)))).
Proof.
  induction rest as [|seg' rest' IH]; intros seg val this Hnd; cbn [deepWriting].
  - destruct (allowedToWrite this seg); cbn [negb snd]; [|exact Hnd].
    unfold assign. destruct (is_proto_member seg); cbn [snd own]; [exact Hnd|].
    apply own_set_NoDup, Hnd.
  - destruct (allowedToWrite this seg); cbn [negb snd]; [|exact Hnd].
    assert (H1 : forall this1,
               (if falsy (get this seg) then assign this seg (VStoreOf new_Store)
                else Some this) = Some this1 -> NoDup (map fst (own this1))).
    { intros this1. destruct (falsy (get this seg)).
      - unfold assign. destruct (is_proto_member seg); [discriminate|].
        intros H; injection H as <-. apply own_set_NoDup, Hnd.
      - intros H; injection H as <-. exact Hnd. }
    destruct (if falsy (get this seg) then assign this seg (VStoreOf new_Store)
              else Some this) as [this1|]; [|exact Hnd].
    specialize (H1 this1 eq_refl).
    destruct (get this1 seg); try exact H1.
    destruct (deepWriting seg' rest' val (mkStore meta0 props)).
    cbn [snd own]. rewrite replace_keys. exact H1.
Qed.

Lemma writePaths_unique_keys paths : forall this,
  NoDup (map fst (own this)) ->
  NoDup (map fst (own (snd (writePaths paths this)))).
Proof.
  induction paths as [|[path val] paths IH]; intros this Hnd; [exact Hnd|].
  cbn [writePaths]. destruct (write_single path val this) as [[r|e] this1] eqn:Hw.
  - apply IH. unfold write_single in Hw. destruct (split_colon path) as [seg rest].
    replace this1 with (snd (deepWriting seg rest val this)) by (rewrite Hw; reflexivity).
    apply deepWriting_unique_keys, Hnd.
  - cbn [snd]. unfold write_single in Hw. destruct (split_colon path) as [seg rest].
    replace this1 with (snd (deepWriting seg rest val this)) by (rewrite Hw; reflexivity).
    apply deepWriting_unique_keys, Hnd.
Qed.

(** ** The scenarios of the specification *)

Example writeEntries_then_read :
  read (snd (writeEntries (VObj [("x", VObj [("y", VNum 5)])]) new_Store)) "x:y"
  = Ok (VNum 5).
Proof. reflexivity. Qed.

Example structured_write_is_a_batch :
  write "a" (VObj [("b", VNum 1); ("c", VObj [("d", VNum 2)])]) new_Store
  = (Ok (VObj [("b", VNum 1); ("c", VObj [("d", VNum 2)])]),
     snd (write "a:c:d" (VNum 2) (snd (write "a:b" (VNum 1) new_Store)))).
Proof. reflexivity. Qed.

Example read_after_vivification :
  read (snd (write "p:q:r" (VNum 7) new_Store)) "p"
  = Ok (VStore [] [("defaultPolicy", VStr "rw");
                   ("q", VStore [] [("defaultPolicy", VStr "rw"); ("r", VNum 7)])]).
Proof. reflexivity. Qed.

Example admin_store_scenario (user : value) :
  read (new_AdminStore (VStoreOf new_Store)) "user" = Ok (VStoreOf new_Store) /\
  read (new_AdminStore user) "name" = Throw AccessDenied /\
  read (new_AdminStore user) "getCredentials:username" = Ok (VStr "user1") /\
  read (new_AdminStore user) "other" = Throw AccessDenied.
Proof. repeat split. Qed.

Example null_is_not_flattened :
  write "a" VNull new_Store = (Throw TypeError, new_Store) /\
  writeEntries (VObj [("a", VNum 1); ("b", VNull)]) new_Store
  = (Throw TypeError, new_Store).
Proof. split; reflexivity. Qed.

Example array_does_not_round_trip :
  entries (snd (writeEntries (VObj [("a", VArr [VNum 1; VNum 2])]) new_Store))
  = [("defaultPolicy", VStr "rw");
     ("a", VObj [("0", VNum 1); ("1", VNum 2); ("defaultPolicy", VStr "rw")])].
Proof. reflexivity. Qed.

(** * Further properties of the code *)

(** ** A write followed by a read *)

Lemma deepWriting_then_deepReading rest : forall seg val this r this',
  deepWriting seg rest val this = (Ok r, this') ->
  readable_along seg rest this' = true ->
  deepReading seg rest this' = itemToRead <- resolve val ;;
                               Ok itemToRead.
Proof.
  induction rest as [|seg' rest' IH]; intros seg val this r this'; cbn [deepWriting].
  - destruct (allowedToWrite this seg); cbn [negb]; [|discriminate].
    destruct (assign this seg val) as [this1|] eqn:Ha; [|discriminate].
    intros H; injection H as _ <-. cbn [readable_along deepReading].
    rewrite andb_true_r. intros ->. cbn [negb].
    rewrite (@get_assign _ _ _ _ Ha).
    destruct (resolve val) as [item|e]; cbn [bind]; [|reflexivity].
    destruct item; reflexivity.
  - destruct (allowedToWrite this seg); cbn [negb]; [|discriminate].
    destruct (if falsy (get this seg) then assign this seg (VStoreOf new_Store)
              else Some this) as [this1|]; [|discriminate].
    destruct (get this1 seg) eqn:Hg; try discriminate.
    + destruct (has props "deepWriting"); discriminate.
    + destruct (deepWriting seg' rest' val (mkStore meta0 props)) as [r1 child] eqn:Hrec.
      intros H; injection H as -> <-. cbn [readable_along deepReading].
      rewrite get_replace by exact (@get_VStore_has _ _ _ _ Hg).
      unfold VStoreOf. cbn [resolve bind]. rewrite !Store_eta. intros Hr.
      apply andb_true_iff in Hr as [-> Hr]. cbn [negb].
      exact (IH _ _ _ _ _ Hrec Hr).
Qed.

(** X1. After a successful [write] of a single value, [read] of the same
    path gives the value back when the path is readable at every level:
    the value itself if it is not a function, and what the producer
    returns if it is one. *)
Theorem write_then_read (this this' : Store) (path : string) (val r : value) :
  is_object val = false ->
  write path val this = (Ok r, this') ->
  readable_along (fst (split_colon path)) (snd (split_colon path)) this' = true ->
  (is_function val = false -> read this' path = Ok val) /\
  (forall ret, val = VFun ret -> read this' path = Ok ret).
Proof.
  unfold write, write_single, read. intros ->.
  destruct (split_colon path) as [seg rest]; cbn [fst snd]. intros Hw Hr.
  rewrite (@deepWriting_then_deepReading _ _ _ _ _ _ Hw Hr). split.
  - intros Hf. destruct val; try discriminate; reflexivity.
  - intros ret ->. reflexivity.
Qed.

Lemma write_then_read_witness :
  read (snd (write "user:profile:name" (VStr "Ann") new_Store)) "user:profile:name"
  = Ok (VStr "Ann").
Proof.
  exact (proj1 (@write_then_read
                  new_Store (snd (write "user:profile:name" (VStr "Ann") new_Store))
                  "user:profile:name" (VStr "Ann") (VStr "Ann")
                  eq_refl eq_refl eq_refl) eq_refl).
Defined.

(** ** What a write leaves alone *)











(** ** Writing through an entry that is not a Store *)

(** X3. A write of several segments treats a falsy entry at its first
    segment (undefined, null, false, 0 or "") like a missing one: the entry
    is replaced by a new Store and the write goes on in it, so the former
    value is lost. *)
Theorem write_through_falsy_entry (this : Store) (seg seg' : string)
        (rest' : list string) (val : value) :
  allowedToWrite this seg = true ->
  falsy (get this seg) = true ->
  is_proto_member seg = false ->
  fst (deepWriting seg (seg' :: rest') val this)
  = fst (deepWriting seg' rest' val new_Store) /\
  get (snd (deepWriting seg (seg' :: rest') val this)) seg
  = VStoreOf (snd (deepWriting seg' rest' val new_Store)) /\
  forall k, k <> seg ->
            get (snd (deepWriting seg (seg' :: rest') val this)) k = get this k.
Proof.
  intros Ha Hf Hp. cbn [deepWriting]. rewrite Ha, Hf. cbn [negb].
  destruct (assign this seg (VStoreOf new_Store)) as [this1|] eqn:Has;
    [|unfold assign in Has; rewrite Hp in Has; discriminate].
  pose proof (@get_assign _ _ _ _ Has) as Hg1. rewrite Hg1.
  change (VStoreOf new_Store) with (VStore (meta new_Store) (own new_Store)) in Hg1.
  cbn [VStoreOf meta own new_Store].
  change (mkStore [] [("defaultPolicy", VStr "rw")]) with new_Store.
  destruct (deepWriting seg' rest' val new_Store) as [r child]. cbn [fst snd].
  pose proof (@get_VStore_has _ _ _ _ Hg1) as Hh.
  split; [reflexivity|]. split.
  - apply get_replace, Hh.
  - intros k Hk. rewrite get_replace_other by (auto using Hh).
    apply (@get_assign_other _ _ _ _ _ Has). auto.
Qed.

Lemma write_through_falsy_entry_witness :
  get (snd (deepWriting "count" ["x"] (VNum 1)
                        (mkStore [] [("defaultPolicy", VStr "rw"); ("count", VNum 0)])))
      "count"
  = VStore [] [("defaultPolicy", VStr "rw"); ("x", VNum 1)].
Proof.
  exact (proj1 (proj2 (@write_through_falsy_entry
    (mkStore [] [("defaultPolicy", VStr "rw"); ("count", VNum 0)])
    "count" "x" [] (VNum 1) eq_refl eq_refl eq_refl))).
Defined.

(** X4. A write of several segments through a truthy entry that is not a
    Store (true, a number, a string, an array, a plain object, or a
    producer, even one that returns a Store) throws a TypeError, not the
    access error, and changes nothing. *)
Theorem write_through_non_store (this : Store) (path seg seg' : string)
        (rest' : list string) (val : value) :
  split_colon path = (seg, seg' :: rest') ->
  is_object val = false ->
  allowedToWrite this seg = true ->
  truthy_without_deepWriting (get this seg) = true ->
  write path val this = (Throw TypeError, this).
Proof.
  intros Hs Ho Ha Ht. unfold write, write_single. rewrite Ho, Hs.
  cbn [deepWriting]. rewrite Ha. cbn [negb].
  unfold truthy_without_deepWriting in Ht. apply andb_true_iff in Ht as [Hf Ht].
  apply negb_true_iff in Hf. rewrite Hf.
  destruct (get this seg); try discriminate; try reflexivity.
  apply negb_true_iff in Ht. rewrite Ht. reflexivity.
Qed.

Lemma write_through_non_store_witness :
  write "getCredentials:username" (VStr "root") (new_AdminStore VUndef)
  = (Throw TypeError, new_AdminStore VUndef).
Proof.
  exact (@write_through_non_store (new_AdminStore VUndef) "getCredentials:username"
           "getCredentials" "username" [] (VStr "root") eq_refl eq_refl eq_refl eq_refl).
Defined.

(** ** Reading a key that does not exist *)

(** X5. [read] of a path whose first segment is readable but names no
    entry (and no inherited member) returns undefined, whatever segments
    follow: a missing key is not an error. *)
Theorem read_missing_key (this : Store) (path : string) :
  allowedToRead this (fst (split_colon path)) = true ->
  look (own this) (fst (split_colon path)) = None ->
  is_proto_member (fst (split_colon path)) = false ->
  read this path = Ok VUndef.
Proof.
  unfold read. destruct (split_colon path) as [seg rest]. cbn [fst].
  intros Ha Hl Hp.
  assert (Hg : get this seg = VUndef)
    by (unfold get, get_props; rewrite Hl, Hp; reflexivity).
  destruct rest; cbn [deepReading]; rewrite Ha, Hg; reflexivity.
Qed.

Lemma read_missing_key_witness : read new_Store "nothing:here" = Ok VUndef.
Proof. exact (@read_missing_key new_Store "nothing:here" eq_refl eq_refl eq_refl). Defined.

(** ** The policy is an entry like the others *)

(** X6. "defaultPolicy" can be written through [write] when the store
    allows it, and the new value governs at once: after a write of a value
    that is none of "r", "w" and "rw", every key without annotation,
    "defaultPolicy" included, can be neither read nor written, so that the
    store cannot be opened again through [read] and [write]. *)
Theorem write_defaultPolicy_locks (this : Store) (policy : value) :
  allowedToWrite this "defaultPolicy" = true ->
  is_object policy = false ->
  canRead (mkAbility policy) = false ->
  canWrite (mkAbility policy) = false ->
  write "defaultPolicy" policy this = (Ok policy, set_defaultPolicy this policy) /\
  forall path val,
    look (meta this) (fst (split_colon path)) = None ->
    is_object val = false ->
    read (set_defaultPolicy this policy) path = Throw AccessDenied /\
    write path val (set_defaultPolicy this policy)
    = (Throw AccessDenied, set_defaultPolicy this policy).
Proof.
  intros Ha Ho Hr Hw. split.
  - unfold write, write_single. rewrite Ho.
    change (split_colon "defaultPolicy") with ("defaultPolicy", @nil string).
    cbn [deepWriting]. rewrite Ha. cbn [negb]. unfold assign.
    change (is_proto_member "defaultPolicy") with false. cbn iota.
    fold (set_defaultPolicy this policy). rewrite get_set_defaultPolicy. reflexivity.
  - intros path val Hm Hv.
    assert (Hperm : permission (getAbilityMetadata (set_defaultPolicy this policy)
                                                   (fst (split_colon path))) = policy).
    { unfold getAbilityMetadata, getAbilityMetadata_raw, set_defaultPolicy.
      cbn [meta own]. rewrite Hm. cbn [permission]. unfold get_props.
      rewrite look_own_set_same. reflexivity. }
    assert (Hr' : allowedToRead (set_defaultPolicy this policy)
                                (fst (split_colon path)) = false).
    { unfold allowedToRead, canRead. rewrite Hperm. exact Hr. }
    assert (Hw' : allowedToWrite (set_defaultPolicy this policy)
                                 (fst (split_colon path)) = false).
    { unfold allowedToWrite, canWrite. rewrite Hperm. exact Hw. }
    unfold read, write, write_single. rewrite Hv.
    destruct (split_colon path) as [seg rest]. cbn [fst] in *. split.
    + apply deepReading_denied, Hr'.
    + apply deepWriting_denied, Hw'.
Qed.

Lemma write_defaultPolicy_locks_witness :
  write "defaultPolicy" (VStr "rw")
        (snd (write "defaultPolicy" (VStr "none") new_Store))
  = (Throw AccessDenied, set_defaultPolicy new_Store (VStr "none")).
Proof.
  destruct (@write_defaultPolicy_locks new_Store (VStr "none")
              eq_refl eq_refl eq_refl eq_refl) as [Hfirst Hthen].
  rewrite Hfirst. cbn [snd].
  exact (proj2 (Hthen "defaultPolicy" (VStr "rw") eq_refl eq_refl)).
Defined.

(** ** A null in a structured value *)

Lemma existsb_indexed (P : value -> bool) items : forall i,
  existsb (fun kv => P (snd kv)) (indexed i items) = existsb P items.
Proof.
  induction items as [|x items IH]; intros i; [reflexivity|].
  simpl. rewrite IH. reflexivity.
Qed.

Lemma flat_map_entries_null basePath (es : props_t) :
  Forall (fun kv => null_decides_flattening (snd kv)) es ->
  (existsb (fun kv => has_null (snd kv)) es = true ->
   flat_map_entries (path_of_entry basePath) es = Throw TypeError) /\
  (existsb (fun kv => has_null (snd kv)) es = false ->
   exists paths, flat_map_entries (path_of_entry basePath) es = Ok paths).
Proof.
  induction es as [|[k x] es IH]; intros Hall.
  - split; [discriminate|]. intros _. exists []. reflexivity.
  - pose proof (Forall_inv Hall) as Hx. pose proof (Forall_inv_tail Hall) as Hall'.
    cbn [snd] in Hx. destruct (IH Hall') as [IHt IHf].
    cbn [existsb flat_map_entries snd]. unfold path_of_entry at 1. unfold path_of_entry at 2.
    destruct (is_object x) eqn:Ho.
    + destruct (Hx (Some (childBasePath basePath k)) Ho) as [Hxt Hxf].
      destruct (has_null x); cbn [orb].
      * split; [|discriminate]. intros _. rewrite (Hxt eq_refl). reflexivity.
      * destruct (Hxf eq_refl) as [here ->]. cbn [bind]. split.
        -- intros H. rewrite (IHt H). reflexivity.
        -- intros H. destruct (IHf H) as [more ->]. eexists. reflexivity.
    + assert (Hn : has_null x = false) by (destruct x; try reflexivity; discriminate).
      rewrite Hn. cbn [orb bind]. split.
      * intros H. rewrite (IHt H). reflexivity.
      * intros H. destruct (IHf H) as [more ->]. eexists. reflexivity.
Qed.

Lemma null_decides_flattening_all x : null_decides_flattening x.
Proof.
  induction x as [| | b | n | s | items IH | props IH | m props IH | ret IH | name]
    using value_ind; intros basePath Ho; try discriminate.
  - split; [reflexivity|discriminate].
  - rewrite deepCreatingPath_unfold. cbn [Object_entries bind has_null].
    rewrite <- (existsb_indexed has_null items 0).
    apply flat_map_entries_null, Forall_indexed, IH.
  - rewrite deepCreatingPath_unfold. cbn [Object_entries bind has_null].
    apply flat_map_entries_null, IH.
  - rewrite deepCreatingPath_unfold. cbn [Object_entries bind has_null].
    apply flat_map_entries_null, IH.
Qed.

(** X7. A structured value that holds a null anywhere inside its objects,
    arrays and Stores cannot be written: [write] and [writeEntries] throw a
    TypeError before anything is written, whatever the other entries are.
    A null is the only thing that makes the flattening throw. *)
Theorem null_aborts_structured_write (this : Store) (path : string) (val : value) :
  is_object val = true ->
  (has_null val = true ->
   write path val this = (Throw TypeError, this) /\
   writeEntries val this = (Throw TypeError, this)) /\
  (has_null val = false ->
   (exists paths, deepCreatingPathFromJSONObject (Some path) val = Ok paths) /\
   (exists paths, deepCreatingPathFromJSONObject None val = Ok paths)).
Proof.
  intros Ho. split; intros Hn.
  - unfold write, writeEntries. rewrite Ho.
    rewrite (proj1 (@null_decides_flattening_all val (Some path) Ho) Hn).
    rewrite (proj1 (@null_decides_flattening_all val None Ho) Hn).
    split; reflexivity.
  - split; apply (@null_decides_flattening_all val _ Ho); exact Hn.
Qed.

Lemma null_aborts_structured_write_witness :
  writeEntries (VObj [("a", VNum 1); ("b", VArr [VObj [("c", VNull)]])]) new_Store
  = (Throw TypeError, new_Store).
Proof.
  exact (proj2 (proj1 (@null_aborts_structured_write
    new_Store "" (VObj [("a", VNum 1); ("b", VArr [VObj [("c", VNull)]])]) eq_refl)
    eq_refl)).
Defined.

(** ** A structured write, entry by entry *)

Lemma writePaths_app_outcome before : forall after this,
  writePaths (before ++ after) this
  = match writePaths before this with
    | (Ok _, mid) => writePaths after mid
    | (Throw e, mid) => (Throw e, mid)
    end.
Proof.
  induction before as [|[path val] before IH]; intros after this; [reflexivity|].
  cbn [app writePaths]. destruct (write_single path val this) as [[r|e] this1];
    [apply IH|reflexivity].
Qed.

(** X8. Writing an object at a path is writing its first entry at the path
    extended with the key of the entry, then the object of the remaining
    entries at the path, provided the flattening of the whole object does
    not throw; the first exception ends the sequence. *)
Theorem structured_write_by_entries (this : Store) (path key : string) (x : value)
        (props : props_t) (paths : list (string * value)) :
  deepCreatingPathFromJSONObject (Some path) (VObj ((key, x) :: props)) = Ok paths ->
  write path (VObj ((key, x) :: props)) this
  = match write (childBasePath (Some path) key) x this with
    | (Ok _, this1) =>
        match write path (VObj props) this1 with
        | (Ok _, this2) => (Ok (VObj ((key, x) :: props)), this2)
        | (Throw e, this2) => (Throw e, this2)
        end
    | (Throw e, this1) => (Throw e, this1)
    end.
Proof.
  intros Hflat. unfold write at 1. cbn [is_object typeof]. rewrite Hflat.
  rewrite deepCreatingPath_unfold in Hflat. cbn [Object_entries bind] in Hflat.
  cbn [flat_map_entries] in Hflat.
  destruct (path_of_entry (Some path) key x) as [here|] eqn:Hhere; [|discriminate].
  cbn [bind] in Hflat.
  destruct (flat_map_entries (path_of_entry (Some path)) props) as [more|] eqn:Hmore;
    [|discriminate].
  cbn [bind] in Hflat. injection Hflat as <-.
  assert (Hrest : write path (VObj props) = fun this1 =>
            match writePaths more this1 with
            | (Ok _, this2) => (Ok (VObj props), this2)
            | (Throw e, this2) => (Throw e, this2)
            end).
  { unfold write. cbn [is_object typeof]. rewrite deepCreatingPath_unfold.
    cbn [Object_entries bind]. rewrite Hmore. reflexivity. }
  rewrite Hrest.
  assert (Hfirst : writePaths here this
                   = match write (childBasePath (Some path) key) x this with
                     | (Ok _, this1) => (Ok tt, this1)
                     | (Throw e, this1) => (Throw e, this1)
                     end).
  { unfold path_of_entry in Hhere.
    remember (childBasePath (Some path) key) as child eqn:Hchild.
    unfold write. destruct (is_object x).
    - rewrite Hhere. destruct (writePaths here this) as [[[]|e] this1]; reflexivity.
    - injection Hhere as <-. cbn [writePaths].
      destruct (write_single child x this) as [[r|e] this1]; reflexivity. }
  rewrite writePaths_app_outcome, Hfirst.
  destruct (write (childBasePath (Some path) key) x this) as [[r|e] this1];
    [|reflexivity].
  destruct (writePaths more this1) as [[u|e] this2]; reflexivity.
Qed.

Lemma structured_write_by_entries_witness :
  write "a" (VObj [("b", VNum 1); ("c", VObj [("d", VNum 2)])]) new_Store
  = (Ok (VObj [("b", VNum 1); ("c", VObj [("d", VNum 2)])]),
     snd (write "a" (VObj [("c", VObj [("d", VNum 2)])])
                (snd (write "a:b" (VNum 1) new_Store)))).
Proof.
  rewrite (@structured_write_by_entries new_Store "a" "b" (VNum 1)
             [("c", VObj [("d", VNum 2)])] [("a:b", VNum 1); ("a:c:d", VNum 2)] eq_refl).
  reflexivity.
Defined.

(** ** Paths built by the flattening, paths split by read and write *)

Lemma split_colon_app b q :
  split_colon (b ++ ":" ++ q)
  = (fst (split_colon b), snd (split_colon b) ++ fst (split_colon q) :: snd (split_colon q)).
Proof.
  induction b as [|c b IH].
  - cbn. destruct (split_colon q). reflexivity.
  - cbn in IH |- *. rewrite IH. destruct (split_colon b) as [s r]. cbn [fst snd].
    destruct (Ascii.eqb c ":"); reflexivity.
Qed.

(** X9. The path that the flattening gives to the entry [key] below a
    non-empty base path splits into the segments of the base path followed
    by the segments of [key]: by [key] alone when it holds no ":", and by
    several segments when it does, since nothing escapes a ":" in a key. *)
Theorem child_path_segments (b key : string) :
  b <> "" ->
  split_colon (childBasePath (Some b) key)
  = (fst (split_colon b),
     snd (split_colon b) ++ fst (split_colon key) :: snd (split_colon key)) /\
  (has_colon key = false ->
   split_colon (childBasePath (Some b) key)
   = (fst (split_colon b), snd (split_colon b) ++ [key])).
Proof.
  intros Hb. cbn [childBasePath]. apply String.eqb_neq in Hb. rewrite Hb.
  rewrite split_colon_app. split; [reflexivity|].
  intros Hc. rewrite (@split_colon_key key Hc). reflexivity.
Qed.

Lemma child_path_segments_witness :
  split_colon (childBasePath (Some "user:profile") "name") = ("user", ["profile"; "name"]) /\
  split_colon (childBasePath (Some "user") "a:b") = ("user", ["a"; "b"]).
Proof.
  split.
  - refine (proj2 (@child_path_segments "user:profile" "name" _) eq_refl). discriminate.
  - refine (proj1 (@child_path_segments "user" "a:b" _)). discriminate.
Defined.



(** ** What entries hands out *)

Lemma In_own_set (A : Type) (l : list (string * A)) k x kv :
  In kv (own_set l k x) -> kv = (k, x) \/ In kv l.
Proof.
  unfold own_set. destruct (has l k).
  - induction l as [|[k0 y] l IH]; cbn [replace]; [auto|].
    destruct (String.eqb k0 k); cbn [In]; intuition auto.
  - destruct (array_index k) as [i|].
    + induction l as [|[k0 y] l IH]; cbn [insert_index In]; [intuition auto|].
      destruct (array_index k0) as [j|]; [destruct (N.ltb j i)|]; cbn [In];
        intuition auto.
    + rewrite in_app_iff. cbn [In]. intuition auto.
Qed.

(** X11. No value of the object returned by [entries()] is a Store: a
    readable nested Store is handed out as the plain object of its own
    [entries()], never as the Store itself. *)
Theorem entries_holds_no_Store (this : Store) (key : string) (x : value) :
  In (key, x) (entries this) -> instanceof_Store x = false.
Proof.
  rewrite entries_unfold.
  assert (H : forall l acc,
             (forall kv, In kv acc -> instanceof_Store (snd kv) = false) ->
             forall kv,
               In kv (fold_left
                        (fun acc entry =>
                           spread acc (entriesOrEmptyObject this (fst entry) (snd entry)))
                        l acc) ->
               instanceof_Store (snd kv) = false).
  { induction l as [|[k0 x0] l IH]; intros acc Hacc kv; cbn [fold_left]; [apply Hacc|].
    apply IH. intros kv'. cbn [fst snd].
    unfold entriesOrEmptyObject, entriesOrEmptyObject_raw.
    destruct (negb (canRead (getAbilityMetadata_raw (meta this) (own this) k0)));
      [apply Hacc|].
    destruct (instanceof_Store x0) eqn:Hs; unfold spread; cbn [fold_left fst snd];
      intros Hin; apply In_own_set in Hin as [->|Hin]; auto. }
  intros Hin. apply (H (own this) [] (fun kv (F : In kv []) => match F with end)
                       (key, x) Hin).
Qed.

Lemma entries_holds_no_Store_witness :
  instanceof_Store (VObj [("defaultPolicy", VStr "rw"); ("b", VNum 1)]) = false.
Proof.
  refine (@entries_holds_no_Store
            (snd (write "a:b" (VNum 1) new_Store)) "a"
            (VObj [("defaultPolicy", VStr "rw"); ("b", VNum 1)]) _).
  cbn. auto.
Defined.

(** X12. For an entry that exists, [entries()] and [read] agree on what is
    accessible: the key is missing from [entries()] exactly when [read] of
    that key throws the access error. *)
Theorem entries_hides_what_read_refuses (this : Store) (key : string) (x : value) :
  NoDup (map fst (own this)) ->
  has_colon key = false ->
  look (own this) key = Some x ->
  (look (entries this) key = None <-> read this key = Throw AccessDenied).
Proof.
  intros Hnd Hc Hx. rewrite look_entries by exact Hnd. rewrite Hx.
  unfold read. rewrite (@split_colon_key key Hc). cbn [deepReading option_map].
  destruct (allowedToRead this key); cbn [negb].
  - split; [discriminate|].
    destruct (resolve (get this key)) as [item|e] eqn:Hr; cbn [bind].
    + destruct item; discriminate.
    + unfold resolve in Hr. destruct (get this key); try discriminate.
      injection Hr as <-. discriminate.
  - split; reflexivity.
Qed.

Lemma entries_hides_what_read_refuses_witness :
  look (entries (new_AdminStore VUndef)) "name" = None /\
  read (new_AdminStore VUndef) "name" = Throw AccessDenied.
Proof.
  assert (Hnd : NoDup (map fst (own (new_AdminStore VUndef)))).
  { cbn. repeat constructor; cbn; intuition discriminate. }
  pose proof (@entries_hides_what_read_refuses (new_AdminStore VUndef) "name"
                (VStr "John Doe") Hnd eq_refl eq_refl) as H.
  split; [apply H|]; reflexivity.
Defined.

(** ** The administrative store *)

(** X13. On an AdminStore, whatever [user] it was built with, exactly the
    keys "user" and "getCredentials" can be read and written: a path that
    starts with any other segment, "name" and "defaultPolicy" included, is
    refused by [read] and by [write], which leaves the store as it is. *)
Theorem admin_store_access (user : value) (path : string) :
  allowedToRead (new_AdminStore user) (fst (split_colon path))
  = (String.eqb (fst (split_colon path)) "user"
     || String.eqb (fst (split_colon path)) "getCredentials") /\
  allowedToWrite (new_AdminStore user) (fst (split_colon path))
  = (String.eqb (fst (split_colon path)) "user"
     || String.eqb (fst (split_colon path)) "getCredentials") /\
  (fst (split_colon path) <> "user" -> fst (split_colon path) <> "getCredentials" ->
   read (new_AdminStore user) path = Throw AccessDenied /\
   forall val, is_object val = false ->
               write path val (new_AdminStore user)
               = (Throw AccessDenied, new_AdminStore user)).
Proof.
  set (key := fst (split_colon path)).
  assert (Hm : meta (new_AdminStore user)
               = [("user", Prw); ("name", Pnone); ("getCredentials", Prw)])
    by reflexivity.
  assert (Hd : get_props (own (new_AdminStore user)) "defaultPolicy" = VStr "none")
    by reflexivity.
  assert (Hperm : permission (getAbilityMetadata (new_AdminStore user) key)
                  = if String.eqb key "user" || String.eqb key "getCredentials"
                    then VStr "rw" else VStr "none").
  { unfold getAbilityMetadata, getAbilityMetadata_raw. rewrite Hm, Hd. cbn [look].
    rewrite (String.eqb_sym key "user"), (String.eqb_sym key "getCredentials").
    destruct (String.eqb "user" key); [reflexivity|].
    destruct (String.eqb "name" key) eqn:E.
    - apply String.eqb_eq in E. rewrite <- E. reflexivity.
    - destruct (String.eqb "getCredentials" key); reflexivity. }
  assert (Hr : allowedToRead (new_AdminStore user) key
               = (String.eqb key "user" || String.eqb key "getCredentials")).
  { unfold allowedToRead, canRead. rewrite Hperm.
    destruct (String.eqb key "user" || String.eqb key "getCredentials"); reflexivity. }
  assert (Hw : allowedToWrite (new_AdminStore user) key
               = (String.eqb key "user" || String.eqb key "getCredentials")).
  { unfold allowedToWrite, canWrite. rewrite Hperm.
    destruct (String.eqb key "user" || String.eqb key "getCredentials"); reflexivity. }
  split; [exact Hr|]. split; [exact Hw|].
  intros H1 H2. apply String.eqb_neq in H1, H2. rewrite H1, H2 in Hr, Hw.
  unfold read, write, write_single. subst key.
  destruct (split_colon path) as [seg rest]. cbn [fst] in *. split.
  - apply deepReading_denied, Hr.
  - intros val ->. apply deepWriting_denied, Hw.
Qed.

Lemma admin_store_access_witness :
  write "defaultPolicy" (VStr "rw") (new_AdminStore VUndef)
  = (Throw AccessDenied, new_AdminStore VUndef).
Proof.
  destruct (@admin_store_access VUndef "defaultPolicy") as (_ & _ & H).
  refine (proj2 (H _ _) (VStr "rw") eq_refl); discriminate.
Defined.

(** ** Structured values without a leaf *)

Lemma flat_map_entries_leafless basePath (es : props_t) :
  Forall (fun kv => leafless (snd kv) = true ->
                    forall b, deepCreatingPathFromJSONObject b (snd kv) = Ok []) es ->
  forallb (fun kv => leafless (snd kv)) es = true ->
  flat_map_entries (path_of_entry basePath) es = Ok [].
Proof.
  induction es as [|[k x] es IH]; intros Hall Hl; [reflexivity|].
  pose proof (Forall_inv Hall) as Hx. pose proof (Forall_inv_tail Hall) as Hall'.
  cbn [forallb snd] in Hl, Hx. apply andb_true_iff in Hl as [Hlx Hl].
  cbn [flat_map_entries]. rewrite (IH Hall' Hl). unfold path_of_entry.
  assert (Ho : is_object x = true) by (destruct x; try discriminate; reflexivity).
  rewrite Ho, (Hx Hlx). reflexivity.
Qed.

Lemma leafless_flattens_to_nothing x :
  leafless x = true -> forall b, deepCreatingPathFromJSONObject b x = Ok [].
Proof.
  induction x as [| | bb | n | s | items IH | props IH | m props IH | ret IH | name]
    using value_ind; intros Hl b; try discriminate;
    rewrite deepCreatingPath_unfold; cbn [Object_entries bind leafless] in *.
  - apply flat_map_entries_leafless;
      [apply (@Forall_indexed
                (fun x => leafless x = true ->
                          forall b, deepCreatingPathFromJSONObject b x = Ok [])
                items 0 IH)|].
    clear IH. revert Hl. generalize 0.
    induction items as [|x items IHi]; intros i Hl; [reflexivity|].
    cbn [forallb indexed snd] in *. apply andb_true_iff in Hl as [-> Hl].
    apply IHi, Hl.
  - apply flat_map_entries_leafless; assumption.
  - apply flat_map_entries_leafless; assumption.
Qed.

(** X14. A structured value without a leaf, such as [{}], [[]] or
    [{a: {}, b: []}], is written nowhere: [write] returns it and
    [writeEntries] returns, at any path and whatever the permissions, and
    the store is unchanged, so that an empty object or array given to the
    store is not found in it afterwards. *)
Theorem leafless_write_changes_nothing (this : Store) (path : string) (val : value) :
  leafless val = true ->
  write path val this = (Ok val, this) /\
  writeEntries val this = (Ok tt, this).
Proof.
  intros Hl. unfold write, writeEntries.
  assert (Ho : is_object val = true) by (destruct val; try discriminate; reflexivity).
  rewrite Ho, !(@leafless_flattens_to_nothing val Hl). split; reflexivity.
Qed.

Lemma leafless_write_changes_nothing_witness :
  write "name" (VObj [("first", VObj []); ("others", VArr [])]) (new_AdminStore VUndef)
  = (Ok (VObj [("first", VObj []); ("others", VArr [])]), new_AdminStore VUndef).
Proof.
  exact (proj1 (@leafless_write_changes_nothing (new_AdminStore VUndef) "name"
                  (VObj [("first", VObj []); ("others", VArr [])]) eq_refl)).
Defined.

(** ** Arrays *)

Lemma has_colon_string_of_uint u : has_colon (NilEmpty.string_of_uint u) = false.
Proof. induction u; cbn; auto. Qed.

Lemma to_uint_not_Nil i : Nat.to_uint i <> Decimal.Nil.
Proof.
  rewrite <- (Unsigned.of_to i) at 1. rewrite Unsigned.to_of.
  unfold Decimal.unorm. destruct (Decimal.nzhead (Nat.to_uint i)); discriminate.
Qed.

Lemma index_key_ok i : key_ok (index_key i) = true.
Proof.
  unfold key_ok, index_key. rewrite has_colon_string_of_uint.
  pose proof (to_uint_not_Nil i) as Hn.
  destruct (Nat.to_uint i); [congruence| | | | | | | | | |]; reflexivity.
Qed.

Lemma index_key_inj i j : index_key i = index_key j -> i = j.
Proof.
  unfold index_key. intros H. apply Unsigned.to_uint_inj.
  apply (f_equal NilEmpty.uint_of_string) in H. rewrite !NilEmpty.usu in H.
  congruence.
Qed.

Lemma open_put_all es : forall this,
  open_store this -> Forall (fun kv => fst kv <> "defaultPolicy") es ->
  open_store (put_all es this).
Proof.
  induction es as [|[k x] es IH]; intros this Ho Hall; [exact Ho|].
  pose proof (Forall_inv Hall) as Hk. pose proof (Forall_inv_tail Hall) as Hall'.
  apply IH; [apply open_put; assumption|exact Hall'].
Qed.

Lemma look_put_all_other es : forall this k,
  ~ In k (map fst es) -> look (own (put_all es this)) k = look (own this) k.
Proof.
  induction es as [|[k0 x] es IH]; intros this k Hn; [reflexivity|].
  cbn [put_all fold_left fst snd]. fold (put_all es (put this k0 x)).
  cbn [map fst In] in Hn. rewrite IH by tauto.
  cbn [put own]. apply look_own_set_other. tauto.
Qed.

Lemma indexed_keys (A : Type) (items : list A) : forall i k,
  In k (map fst (indexed i items)) -> exists j, k = index_key (i + j).
Proof.
  induction items as [|x items IH]; intros i k; cbn [indexed map fst In]; [tauto|].
  intros [<-|Hin].
  - exists 0. rewrite Nat.add_0_r. reflexivity.
  - destruct (IH _ _ Hin) as [j ->]. exists (S j). rewrite Nat.add_succ_r. reflexivity.
Qed.

Lemma look_put_all_indexed items : forall i this j v,
  nth_error items j = Some v ->
  look (own (put_all (indexed i items) this)) (index_key (i + j)) = Some v.
Proof.
  induction items as [|x items IH]; intros i this j v; [destruct j; discriminate|].
  cbn [indexed put_all fold_left fst snd].
  fold (put_all (indexed (S i) items) (put this (index_key i) x)).
  destruct j as [|j]; cbn [nth_error].
  - intros H; injection H as ->. rewrite Nat.add_0_r.
    rewrite look_put_all_other; [apply look_own_set_same|].
    intros Hin. apply indexed_keys in Hin as [t Ht].
    apply index_key_inj in Ht. simpl in Ht.
    clear - Ht. induction i; [discriminate|]. injection Ht as Ht. auto.
  - intros H. rewrite Nat.add_succ_r. apply (IH (S i) _ j v H).
Qed.

Lemma writePaths_indexed items : forall i this,
  open_store this ->
  forallb (fun x => negb (is_object x)) items = true ->
  writePaths (indexed i items) this = (Ok tt, put_all (indexed i items) this).
Proof.
  induction items as [|x items IH]; intros i this Ho Hl; [reflexivity|].
  cbn [forallb] in Hl. apply andb_true_iff in Hl as [_ Hl].
  cbn [indexed writePaths put_all fold_left fst snd].
  rewrite (@write_single_key this (index_key i) x Ho (index_key_ok i)).
  apply IH; [|exact Hl]. apply open_put; [exact Ho|].
  apply (@key_ok_facts (index_key i) (index_key_ok i)).
Qed.

Lemma flat_map_entries_indexed_leaves basePath items : forall i,
  forallb (fun x => negb (is_object x)) items = true ->
  flat_map_entries (path_of_entry basePath) (indexed i items)
  = Ok (map (rebase basePath) (indexed i items)).
Proof.
  induction items as [|x items IH]; intros i Hl; [reflexivity|].
  cbn [forallb] in Hl. apply andb_true_iff in Hl as [Hx Hl].
  apply negb_true_iff in Hx.
  cbn [indexed flat_map_entries map]. rewrite (IH _ Hl).
  unfold path_of_entry. rewrite Hx. reflexivity.
Qed.

(** X15. An array of values that are not objects, written at a new key of
    a store without annotation whose policy is "rw", is not stored as an
    array: the key then holds a Store in which the element of index [i] is
    the entry of key [i], so that [read] of the key followed by ":" and the
    index gives the element. *)
Theorem array_is_written_as_store (this : Store) (key : string) (items : list value) :
  open_store this ->
  key_ok key = true ->
  look (own this) key = None ->
  items <> [] ->
  forallb (fun x => negb (is_object x)) items = true ->
  exists this',
    write key (VArr items) this = (Ok (VArr items), this') /\
    get this' key = VStoreOf (put_all (indexed 0 items) new_Store) /\
    forall i v, nth_error items i = Some v -> is_function v = false ->
                read this' (key ++ ":" ++ index_key i) = Ok v.
Proof.
  intros Ho Hk Hl Hne Hitems.
  destruct (@key_ok_facts key Hk) as (Hc & Hkne & Hd & Hp).
  set (child := put_all (indexed 0 items) new_Store).
  exists (put this key (VStoreOf child)).
  assert (Hflat : deepCreatingPathFromJSONObject (Some key) (VArr items)
                  = Ok (map (under key) (indexed 0 items))).
  { rewrite deepCreatingPath_unfold. cbn [Object_entries bind].
    rewrite (@flat_map_entries_indexed_leaves (Some key) items 0 Hitems).
    f_equal. apply map_ext. intros [k x]. unfold rebase, under. cbn [childBasePath fst snd].
    apply String.eqb_neq in Hkne. rewrite Hkne. reflexivity. }
  assert (Hchild : writePaths (indexed 0 items) new_Store = (Ok tt, child))
    by (apply writePaths_indexed; [apply open_new_Store|exact Hitems]).
  assert (Hget : get (put this key (VStoreOf child)) key = VStoreOf child)
    by (unfold get, get_props, put; cbn [own]; rewrite look_own_set_same; reflexivity).
  split; [|split; [exact Hget|]].
  - unfold write. cbn [is_object typeof]. rewrite Hflat.
    rewrite (@writePaths_under_new key (indexed 0 items) this Ho Hk Hl).
    + rewrite Hchild. reflexivity.
    + destruct items; [congruence|discriminate].
  - intros i v Hnth Hf. unfold read.
    rewrite (@split_colon_under key (index_key i) Hc).
    rewrite (@split_colon_key (index_key i)
               (proj1 (@key_ok_facts _ (index_key_ok i)))).
    cbn [fst snd deepReading].
    rewrite (@open_allowedToRead (put this key (VStoreOf child)) key
               (@open_put this key (VStoreOf child) Ho Hd)).
    cbn [negb]. rewrite Hget. unfold VStoreOf. cbn [resolve bind]. rewrite Store_eta.
    assert (Hoc : open_store child).
    { apply open_put_all; [apply open_new_Store|].
      apply Forall_forall. intros [k x] Hin. cbn [fst].
      destruct (@indexed_keys _ items 0 k) as [j ->].
      - apply in_map_iff. exists (k, x). auto.
      - apply (@key_ok_facts _ (index_key_ok (0 + j))). }
    rewrite (@open_allowedToRead child (index_key i) Hoc). cbn [negb].
    assert (Hv : get child (index_key i) = v).
    { pose proof (@look_put_all_indexed items 0 new_Store i v Hnth) as Hlook.
      cbn [Nat.add] in Hlook. unfold get, get_props, child.
      rewrite Hlook. reflexivity. }
    rewrite Hv. destruct v; try discriminate; reflexivity.
Qed.

Lemma array_is_written_as_store_witness :
  exists this',
    write "tags" (VArr [VStr "a"; VStr "b"]) new_Store
    = (Ok (VArr [VStr "a"; VStr "b"]), this') /\
    read this' "tags:1" = Ok (VStr "b").
Proof.
  destruct (@array_is_written_as_store new_Store "tags" [VStr "a"; VStr "b"])
    as (this' & Hw & _ & Hr).
  - apply open_new_Store.
  - reflexivity.
  - reflexivity.
  - discriminate.
  - reflexivity.
  - exists this'. split; [exact Hw|].
    exact (Hr 1 (VStr "b") eq_refl eq_refl).
Defined.

(** ** writeEntries and write at the empty path *)

Lemma flat_map_entries_ext (A : Type) (f g : string -> value -> outcome (list A)) es :
  (forall k x, f k x = g k x) -> flat_map_entries f es = flat_map_entries g es.
Proof.
  intros H. induction es as [|[k x] es IH]; [reflexivity|].
  cbn [flat_map_entries]. rewrite H, IH. reflexivity.
Qed.

Lemma deepCreatingPath_empty_base v :
  deepCreatingPathFromJSONObject (Some "") v = deepCreatingPathFromJSONObject None v.
Proof.
  rewrite !deepCreatingPath_unfold. destruct (Object_entries v) as [es|e]; [|reflexivity].
  cbn [bind]. apply flat_map_entries_ext. reflexivity.
Qed.

(** X16. For a value whose [typeof] is "object", [writeEntries(entries)]
    does what [write("", entries)] does, return value apart: the same
    writes in the same order, the same exception, the same store. *)
Theorem writeEntries_is_write_at_empty_path (this : Store) (entries : value) :
  is_object entries = true ->
  snd (writeEntries entries this) = snd (write "" entries this) /\
  fst (writeEntries entries this)
  = match fst (write "" entries this) with
    | Ok _ => Ok tt
    | Throw e => Throw e
    end.
Proof.
  intros Ho. unfold writeEntries, write. rewrite Ho, deepCreatingPath_empty_base.
  destruct (deepCreatingPathFromJSONObject None entries) as [paths|e];
    [|split; reflexivity].
  destruct (writePaths paths this) as [[[]|e] this1]; split; reflexivity.
Qed.

Lemma writeEntries_is_write_at_empty_path_witness :
  snd (writeEntries (VObj [("x", VObj [("y", VNum 5)])]) new_Store)
  = snd (write "" (VObj [("x", VObj [("y", VNum 5)])]) new_Store).
Proof.
  exact (proj1 (@writeEntries_is_write_at_empty_path
                  new_Store (VObj [("x", VObj [("y", VNum 5)])]) eq_refl)).
Defined.

(** ** Permissions after a write *)



(** ** Keys are never removed *)

Lemma has_own_set (A : Type) (l : list (string * A)) k x k' :
  has l k' = true -> has (own_set l k x) k' = true.
Proof.
  unfold has. rewrite look_own_set. destruct (String.eqb k k'); [reflexivity|auto].
Qed.

Lemma has_replace (A : Type) (l : list (string * A)) k x k' :
  has l k' = true -> has (replace l k x) k' = true.
Proof.
  unfold has. induction l as [|[k0 y] l IH]; cbn [look replace]; [auto|].
  destruct (String.eqb k0 k) eqn:E; cbn [look].
  - apply String.eqb_eq in E; subst k0. destruct (String.eqb k k'); auto.
  - destruct (String.eqb k0 k'); auto.
Qed.

Lemma deepWriting_keeps_keys rest : forall seg val this k,
  has (own this) k = true ->
  has (own (snd (deepWriting seg rest val this))) k = true.
Proof.
  destruct rest as [|seg' rest']; intros seg val this k Hk; cbn [deepWriting].
  - destruct (allowedToWrite this seg); cbn [negb]; [|exact Hk].
    unfold assign. destruct (is_proto_member seg); [exact Hk|].
    cbn [snd own]. apply has_own_set, Hk.
  - destruct (allowedToWrite this seg); cbn [negb]; [|exact Hk].
    assert (H1 : forall this1,
               (if falsy (get this seg) then assign this seg (VStoreOf new_Store)
                else Some this) = Some this1 -> has (own this1) k = true).
    { intros this1. destruct (falsy (get this seg)).
      - unfold assign. destruct (is_proto_member seg); [discriminate|].
        intros H; injection H as <-. cbn [own]. apply has_own_set, Hk.
      - intros H; injection H as <-. exact Hk. }
    destruct (if falsy (get this seg) then assign this seg (VStoreOf new_Store)
              else Some this) as [this1|]; [|exact Hk].
    specialize (H1 this1 eq_refl).
    destruct (get this1 seg); try exact H1.
    destruct (deepWriting seg' rest' val (mkStore meta0 props)).
    cbn [snd own]. apply has_replace, H1.
Qed.

Lemma writePaths_keeps_keys paths : forall this k,
  has (own this) k = true -> has (own (snd (writePaths paths this))) k = true.
Proof.
  induction paths as [|[path val] paths IH]; intros this k Hk; [exact Hk|].
  cbn [writePaths]. unfold write_single. destruct (split_colon path) as [seg rest].
  pose proof (@deepWriting_keeps_keys rest seg val this k Hk) as H1.
  destruct (deepWriting seg rest val this) as [[r|e] this1]; cbn [snd] in *.
  - apply IH, H1.
  - exact H1.
Qed.

(** X18. [write] and [writeEntries] never remove an entry: a key the store
    has before the call is a key it has after it, whether the call
    returned or threw; its value may have been replaced. *)
Theorem write_never_removes_a_key (this : Store) (path key : string) (val : value) :
  has (own this) key = true ->
  has (own (snd (write path val this))) key = true /\
  has (own (snd (writeEntries val this))) key = true.
Proof.
  intros Hk. unfold write, writeEntries, write_single. split.
  - destruct (is_object val).
    + destruct (deepCreatingPathFromJSONObject (Some path) val) as [paths|e];
        [|exact Hk].
      pose proof (@writePaths_keeps_keys paths this key Hk) as H1.
      destruct (writePaths paths this) as [[u|e] this1]; exact H1.
    + destruct (split_colon path) as [seg rest]. apply deepWriting_keeps_keys, Hk.
  - destruct (deepCreatingPathFromJSONObject None val) as [paths|e]; [|exact Hk].
    apply writePaths_keeps_keys, Hk.
Qed.

Lemma write_never_removes_a_key_witness :
  has (own (snd (write "name:first" (VStr "x") (new_AdminStore VUndef)))) "name" = true.
Proof.
  exact (proj1 (@write_never_removes_a_key (new_AdminStore VUndef) "name:first" "name"
                  (VStr "x") eq_refl)).
Defined.
